(** * The [logging] package of gear: a shallow embedding

    This development embeds [logging/logger.go] and proves the properties
    the package's specification states about it.

    - Go values whose representation the package never looks at
      ([interface{}] payloads, [time.Time]) are abstract: the operations the
      package applies to them are the methods of the classes [GoValue]
      and [GoTime].
    - Mutable objects live in explicit state.  A [Log] is a reference into
      a heap of maps ([gmap string Value]); the destination behind
      [Logger.Out] is a piece of the [World]; every function that mutates
      or may panic is a computation in the monad [Go].
    - The model is sequential: [mu.Lock()] with its deferred [mu.Unlock()]
      brackets a critical section and is the identity on the state. *)

From Stdlib Require Import NArith ZArith Ascii String.
From stdpp Require Import base option list strings pretty gmap fin_maps.

Local Open Scope string_scope.

(* ================================================================== *)
(** * Go control flow: state, results and panics *)

(** What a call can end in: a normal return or a panic carrying a value. *)
Inductive PanicValue : Type :=
| gear_Err_WithMsg (msg : string)   (* panic(gear.Err.WithMsg(msg)) *)
| runtime_nil_map                   (* assignment to entry in nil map *)
| panic_other (msg : string).       (* raised by code outside the package *)

Inductive outcome (A : Type) : Type :=
| Returned (a : A)
| Panicked (p : PanicValue).
Arguments Returned {A} a.
Arguments Panicked {A} p.

(** A Go computation over a mutable state [S]: the outcome together with
    the state it leaves behind (a panic keeps what was mutated so far). *)
Definition Go (S A : Type) : Type := S → outcome A * S.

#[export] Instance Go_ret {S} : MRet (Go S) := λ A a s, (Returned a, s).

#[export] Instance Go_bind {S} : MBind (Go S) := λ A B k m s,
  match m s with
  | (Returned a, s') => k a s'
  | (Panicked p, s') => (Panicked p, s')
  end.

Definition panic {S A} (p : PanicValue) : Go S A := λ s, (Panicked p, s).

(** [for _, x := range xs { body x }] over a snapshot [xs]. *)
Fixpoint for_each {S A} (xs : list A) (body : A → Go S unit) : Go S unit :=
  match xs with
  | [] => mret tt
  | x :: xs' => body x ;; for_each xs' body
  end.

(** Running a computation on a component of a larger state. *)
Definition zoom {S T A} (get : T → S) (set : S → T → T) (m : Go S A) : Go T A :=
  λ t, let '(r, s') := m (get t) in (r, set s' t).

(** Go's [error] interface: [None] is [nil]. *)
Inductive error_value : Type := errors_New (msg : string).
Definition error : Type := option error_value.

(* ================================================================== *)
(** * Severity levels *)

(** [type Level uint8].  The package compares levels and never computes
    with them, so the width of the type plays no role. *)
Definition Level : Type := N.

Definition EmergLevel : Level := 0%N.
Definition AlertLevel : Level := 1%N.
Definition CritiLevel : Level := 2%N.
Definition ErrLevel : Level := 3%N.
Definition WarningLevel : Level := 4%N.
Definition NoticeLevel : Level := 5%N.
Definition InfoLevel : Level := 6%N.
Definition DebugLevel : Level := 7%N.

(** [func (l Level) String() string]: the [switch] tries the cases in order. *)
Definition Level_String (l : Level) : string :=
  if (l =? EmergLevel)%N then "EMERG"
  else if (l =? AlertLevel)%N then "ALERT"
  else if (l =? CritiLevel)%N then "CRIT"
  else if (l =? ErrLevel)%N then "ERR"
  else if (l =? WarningLevel)%N then "WARNING"
  else if (l =? NoticeLevel)%N then "NOTICE"
  else if (l =? InfoLevel)%N then "INFO"
  else if (l =? DebugLevel)%N then "DEBUG"
  else "LOG".

(* ================================================================== *)
(** * Strings as byte sequences *)

Definition CR : ascii := "013"%char.
Definition LF : ascii := "010"%char.

(** [strings.NewReplacer] with one-byte old strings builds a byte-to-string
    table; on a repeated old byte the earlier pair wins. *)
Definition Replacer : Type := list (ascii * string).

Fixpoint replacement (r : Replacer) (b : ascii) : option string :=
  match r with
  | [] => None
  | (old, new) :: r' => if Ascii.eqb old b then Some new else replacement r' b
  end.

(** [r.Replace(s)]: every byte with an entry is replaced, the others are
    copied. *)
Fixpoint Replace (r : Replacer) (s : string) : string :=
  match s with
  | EmptyString => EmptyString
  | String b s' =>
      match replacement r b with
      | Some new => new +:+ Replace r s'
      | None => String b (Replace r s')
      end
  end.

(** [var crlfEscaper = strings.NewReplacer("\r", "\\r", "\n", "\\n")] *)
Definition crlfEscaper : Replacer :=
  [(CR, String "\" (String "r" EmptyString));
   (LF, String "\" (String "n" EmptyString))].

(** [if l := len(s); l > 0 && s[l-1] == '\n' { s = s[0 : l-1] }] *)
Definition trim_final_newline (s : string) : string :=
  let l := String.length s in
  if (0 <? l)%nat && bool_decide (String.get (l - 1) s = Some LF)
  then substring 0 (l - 1) s
  else s.

(** Whether byte [b] occurs in [s]. *)
Fixpoint has_byte (b : ascii) (s : string) : bool :=
  match s with
  | EmptyString => false
  | String c s' => Ascii.eqb b c || has_byte b s'
  end.

(** The one-byte string holding a line feed. *)
Definition newline : string := String LF EmptyString.

(** The escaping as the specification words it: a carriage return becomes
    the two characters backslash and r, a line feed becomes backslash and
    n, any other byte stays. *)
Definition escape_byte (b : ascii) : string :=
  if Ascii.eqb b CR then String "\" (String "r" EmptyString)
  else if Ascii.eqb b LF then String "\" (String "n" EmptyString)
  else String b EmptyString.

Fixpoint escape_spec (s : string) : string :=
  match s with
  | EmptyString => EmptyString
  | String b s' => escape_byte b +:+ escape_spec s'
  end.

(* ================================================================== *)
(** * Log records *)

(** A map object is identified by its address; Go's garbage collection
    means an address held by the program is always in the heap. *)
Definition loc : Type := positive.

(** [type Log map[string]interface{}]: a map value is a reference, [None]
    being the nil map. *)
Definition Log : Type := option loc.

Section LogRecords.
Context {Value : Type}.

Local Abbreviation Heap := (gmap loc (gmap string Value)).

(** The key-value pairs a map value denotes; a nil map reads as empty. *)
Definition map_of (h : Heap) (r : Log) : gmap string Value :=
  match r with
  | Some p => default ∅ (h !! p)
  | None => ∅
  end.

(** [Log{}]: a new empty map. *)
Definition map_make : Go Heap Log := λ h,
  let p := fresh (dom h) in (Returned (Some p), <[p := ∅]> h).

(** [len(l)] *)
Definition map_len (r : Log) : Go Heap nat := λ h,
  (Returned (size (map_of h r)), h).

(** [l[key] = val]; storing into a nil map panics. *)
Definition map_assign (r : Log) (key : string) (val : Value) : Go Heap unit :=
  λ h, match r with
       | Some p => (Returned tt, alter (insert key val) p h)
       | None => (Panicked runtime_nil_map, h)
       end.

(** [delete(l, key)]; a no-op on a nil map. *)
Definition map_delete (r : Log) (key : string) : Go Heap unit :=
  λ h, match r with
       | Some p => (Returned tt, alter (delete key) p h)
       | None => (Returned tt, h)
       end.

(** [range l]: the entries present when the loop starts, in the order
    the runtime picks (here the order of [map_to_list]).  The loops of
    this package only store pairs just read from the map, or delete the
    key just visited, so the loop body never changes what is still to be
    visited. *)
Definition map_range (r : Log) : Go Heap (list (string * Value)) := λ h,
  (Returned (map_to_list (map_of h r)), h).

(** The body shared by the copying loops:
    [for key, val := range src { dst[key] = val }], given the pairs the
    range produces. *)
Definition copy_entries (kvs : list (string * Value)) (dst : Log) : Go Heap unit :=
  for_each kvs (λ kv, map_assign dst kv.1 kv.2).

(** [func (l Log) From(log Log) Log] *)
Definition Log_From (l log : Log) : Go Heap Log :=
  kvs ← map_range log;
  copy_entries kvs l ;;
  mret l.

(** [func (l Log) Into(log Log) Log] *)
Definition Log_Into (l log : Log) : Go Heap Log :=
  kvs ← map_range l;
  copy_entries kvs log ;;
  mret log.

(** [func (l Log) With(log map[string]interface{}) Log] *)
Definition Log_With (l log : Log) : Go Heap Log :=
  cp ← (new ← map_make; Log_Into l new);
  kvs ← map_range log;
  copy_entries kvs cp ;;
  mret cp.

(** [func (l Log) Reset()] *)
Definition Log_Reset (l : Log) : Go Heap unit :=
  kvs ← map_range l;
  for_each kvs (λ kv, map_delete l kv.1).

(** A reference the program can hold in heap [h]: the nil map, or the
    address of one of [h]'s objects. *)
Definition sound (h : Heap) (r : Log) : Prop :=
  match r with
  | Some p => is_Some (h !! p)
  | None => True
  end.

(** Heap [h] with the object behind [r] holding the pairs [m]. *)
Definition write_map (h : Heap) (r : Log) (m : gmap string Value) : Heap :=
  match r with
  | Some p => <[p := m]> h
  | None => h
  end.

(** The pairs of [base] overlaid by those of [top]: on a key both have,
    [top]'s value. *)
Definition overlay (base top : gmap string Value) : gmap string Value :=
  top ∪ base.

End LogRecords.

(* ================================================================== *)
(** * Values, time and the formatter *)

(** [type Messager interface { fmt.Stringer; Format() (string, error) }]:
    a value of the interface, given by what its two methods return when
    they are called. *)
Record Messager : Type := mkMessager {
  Messager_Format : string * error;
  Messager_String : string
}.

(** What the package asks of an [interface{}] value and of the libraries
    it passes values to ([fmt], and [gear], whose source is not part of the
    package). *)
Class GoValue (Value : Type) : Type := {
  as_Messager : Value → option Messager;      (* [i.(type)], [case Messager] *)
  fmt_Sprint : Value → string;                (* [fmt.Sprint(i)] *)
  fmt_Sprintf : string → list Value → string; (* [fmt.Sprintf(format, a...)] *)
  box_string : string → Value;                (* a [string] as [interface{}] *)
  box_int : Z → Value;                        (* an [int] as [interface{}] *)
  ErrorWithStack : Value → Z → Value          (* [gear.ErrorWithStack(v, skip)] *)
}.

(** [t.UTC().Format(layout)] on [time.Time]. *)
Class GoTime (Time : Type) : Type := {
  UTC_Format : Time → string → string
}.

(** [func format(i interface{}) (string, error)] *)
Definition format {Value} `{!GoValue Value} (i : Value) : string * error :=
  match as_Messager i with
  | Some v =>
      let '(str, err) := Messager_Format v in
      match err with
      | None => (str, None)
      | Some _ => (Messager_String v, err)
      end
  | None => (fmt_Sprint i, None)
  end.

(* ================================================================== *)
(** * The logger *)

(** Everything mutable the package reaches: the heap of [Log] maps and the
    object behind [Logger.Out]. *)
Record World (Value Dest : Type) : Type := mkWorld {
  heap : gmap loc (gmap string Value);
  dest : Dest
}.
Arguments mkWorld {Value Dest} heap dest.
Arguments heap {Value Dest} w.
Arguments dest {Value Dest} w.

Definition set_heap {Value Dest} (h : gmap loc (gmap string Value))
    (w : World Value Dest) : World Value Dest := mkWorld h (dest w).
Definition set_dest {Value Dest} (d : Dest)
    (w : World Value Dest) : World Value Dest := mkWorld (heap w) d.

(** An [io.Writer] value: its one method, acting on the object behind it. *)
Record Writer (Dest : Type) : Type := mkWriter {
  Writer_Write : string → Go Dest (Z * error)
}.
Arguments mkWriter {Dest} Writer_Write.
Arguments Writer_Write {Dest} w p.

(** Modelled from the spec: [gear.Context] belongs to package [gear], which
    is not under the logging sources.  Of a context the package uses the
    value stored for the logger ([ctx.Any(l)], the attached record), the
    response status ([ctx.Res.Status()]) and the response body
    ([ctx.Res.Body()]); [ctx.OnEnd] registers an end hook. *)
Record gear_Context : Type := mkContext {
  ctx_Any : Log;
  Res_Status : Z;
  Res_Body : string
}.

Section Logger.
Context {Value Time Dest : Type} `{!GoValue Value, !GoTime Time}.

Local Abbreviation World' := (World Value Dest).

(** The [output] field holds a function.  The one [New] stores is a closure
    over the logger it builds: it reads that logger's [Out], [tf] and [lf]
    each time it runs.  [SetOutput] stores any other function (a nil
    function value being the function that panics when called). *)
Inductive OutputFunc : Type :=
| output_New
| output_func (fn : string → Time → Value → Go World' error).

(** [type Logger struct] (the mutex [mu] has no state in a sequential
    model). *)
Record Logger : Type := mkLogger {
  Out : Writer Dest;
  l : Level;
  tf : string;
  lf : string;
  init : Log → gear_Context → Go World' unit;
  consume : Log → gear_Context → Go World' unit;
  output : OutputFunc
}.

Definition in_heap {A} (m : Go (gmap loc (gmap string Value)) A) : Go World' A :=
  zoom heap set_heap m.
Definition in_dest {A} (m : Go Dest A) : Go World' A :=
  zoom dest set_dest m.

(** [fmt.Fprintf(w, format, a...)]: formats, then hands the bytes to [w]
    in one [Write] call and returns what that call returns. *)
Definition Fprintf (w : Writer Dest) (fmt : string) (a : list Value)
    : Go World' (Z * error) :=
  in_dest (Writer_Write w (fmt_Sprintf fmt a)).

(** The closure [logger.output = func(tag, t, v) error { ... }] of [New]. *)
Definition default_output (logger : Logger) (tag : string) (t : Time) (v : Value)
    : Go World' error :=
  let '(s, err) := format v in
  match err with
  | Some _ => mret err
  | None =>
      let s := trim_final_newline s in
      r ← Fprintf (Out logger) (lf logger)
            [box_string (UTC_Format t (tf logger)); box_string tag;
             box_string (Replace crlfEscaper s)];
      let err := r.2 in
      match err with
      | None => in_dest (Writer_Write (Out logger) (String LF EmptyString)) ;; mret err
      | Some _ => mret err
      end
  end.

(** [func (l *Logger) checkLogLevel(level Level) bool] *)
Definition checkLogLevel (lg : Logger) (level : Level) : bool :=
  (level <=? l lg)%N.

(** [func (l *Logger) Output(tag, t, v) error]: calls [l.output]. *)
Definition Logger_Output (lg : Logger) (tag : string) (t : Time) (v : Value)
    : Go World' error :=
  match output lg with
  | output_New => default_output lg tag t v
  | output_func fn => fn tag t v
  end.

(** The emission methods.  [now] is what [time.Now()] returns in the
    call. *)
Definition Logger_Emerg (lg : Logger) (now : Time) (v : Value) : Go World' error :=
  Logger_Output lg (Level_String EmergLevel) now (ErrorWithStack v 2).

Definition Logger_Alert (lg : Logger) (now : Time) (v : Value) : Go World' error :=
  if checkLogLevel lg AlertLevel
  then Logger_Output lg (Level_String AlertLevel) now (ErrorWithStack v 2)
  else mret None.

Definition Logger_Crit (lg : Logger) (now : Time) (v : Value) : Go World' error :=
  if checkLogLevel lg CritiLevel
  then Logger_Output lg (Level_String CritiLevel) now (ErrorWithStack v 2)
  else mret None.

Definition Logger_Err (lg : Logger) (now : Time) (v : Value) : Go World' error :=
  if checkLogLevel lg ErrLevel
  then Logger_Output lg (Level_String ErrLevel) now (ErrorWithStack v 2)
  else mret None.

Definition Logger_Warning (lg : Logger) (now : Time) (v : Value) : Go World' error :=
  if checkLogLevel lg WarningLevel
  then Logger_Output lg (Level_String WarningLevel) now v
  else mret None.

Definition Logger_Notice (lg : Logger) (now : Time) (v : Value) : Go World' error :=
  if checkLogLevel lg NoticeLevel
  then Logger_Output lg (Level_String NoticeLevel) now v
  else mret None.

Definition Logger_Info (lg : Logger) (now : Time) (v : Value) : Go World' error :=
  if checkLogLevel lg InfoLevel
  then Logger_Output lg (Level_String InfoLevel) now v
  else mret None.

Definition Logger_Debug (lg : Logger) (now : Time) (v : Value) : Go World' error :=
  if checkLogLevel lg DebugLevel
  then Logger_Output lg (Level_String DebugLevel) now v
  else mret None.

Definition Logger_Debugf (lg : Logger) (now : Time) (fmt : string) (args : list Value)
    : Go World' error :=
  if checkLogLevel lg DebugLevel
  then Logger_Output lg (Level_String DebugLevel) now (box_string (fmt_Sprintf fmt args))
  else mret None.

(** The setters act on the logger object; each returns its receiver, here
    the object as the call leaves it. *)
Definition with_l (level : Level) (lg : Logger) : Logger :=
  mkLogger (Out lg) level (tf lg) (lf lg) (init lg) (consume lg) (output lg).
Definition with_output (fn : OutputFunc) (lg : Logger) : Logger :=
  mkLogger (Out lg) (l lg) (tf lg) (lf lg) (init lg) (consume lg) fn.
Definition with_consume (fn : Log → gear_Context → Go World' unit) (lg : Logger) : Logger :=
  mkLogger (Out lg) (l lg) (tf lg) (lf lg) (init lg) fn (output lg).

(** [func (l *Logger) SetLevel(level Level) *Logger] *)
Definition Logger_SetLevel (level : Level) : Go Logger Logger := λ lg,
  if (DebugLevel <? level)%N
  then (Panicked (gear_Err_WithMsg "invalid logger level"), lg)
  else (Returned (with_l level lg), with_l level lg).

(** [func (l *Logger) SetOutput(fn) *Logger] *)
Definition Logger_SetOutput (fn : string → Time → Value → Go World' error)
    : Go Logger Logger := λ lg,
  (Returned (with_output (output_func fn) lg), with_output (output_func fn) lg).

(** [func (l *Logger) SetLogConsume(fn) *Logger] *)
Definition Logger_SetLogConsume (fn : Log → gear_Context → Go World' unit)
    : Go Logger Logger := λ lg,
  (Returned (with_consume fn lg), with_consume fn lg).

(** [func (l *Logger) FromCtx(ctx *gear.Context) Log] *)
Definition Logger_FromCtx (lg : Logger) (ctx : gear_Context) : Log := ctx_Any ctx.

(** The end hook [Serve] registers: [func() { if len(log) == 0 { return };
    log["Status"] = ...; log["Length"] = ...; l.consume(log, ctx) }].
    [log] is the variable the closure captured; [lg] and [ctx] are the
    logger and the context as they are when the hook runs. *)
Definition Serve_end_hook (log : Log) (lg : Logger) (ctx : gear_Context)
    : Go World' unit :=
  n ← in_heap (map_len log);
  if (n =? 0)%nat then mret tt
  else
    in_heap (map_assign log "Status" (box_int (Res_Status ctx))) ;;
    in_heap (map_assign log "Length"
               (box_int (Z.of_nat (String.length (Res_Body ctx))))) ;;
    consume lg log ctx.

(** [func (l *Logger) Serve(ctx *gear.Context) error]: the hooks handed to
    [ctx.OnEnd], and the returned error. *)
Definition Logger_Serve (lg : Logger) (ctx : gear_Context)
    : list (Logger → gear_Context → Go World' unit) * error :=
  let log := Logger_FromCtx lg ctx in
  ([Serve_end_hook log], None).

End Logger.

(* ================================================================== *)
(** * Properties the statements below are phrased with *)

Section Notions.
Context {Value Time Dest : Type} `{!GoValue Value, !GoTime Time}.

(** The call [m], made on logger [lg] in world [w], invokes the output
    pipeline on [(tag, t, v)]: it is the call [lg.Output(tag, t, v)], and
    whatever function is installed as the output hook, the call does what
    that function does on these arguments, and returns what it returns. *)
Definition invokes_output (m : Logger → Go (World Value Dest) error)
    (lg : Logger) (tag : string) (t : Time) (v : Value) (w : World Value Dest)
    : Prop :=
  m lg w = Logger_Output lg tag t v w ∧
  ∀ fn, m (with_output (output_func fn) lg) w = fn tag t v w.

(** The method [m] emits at severity [S] behind the threshold check: it
    invokes the pipeline on [(String(S), now, v)] exactly when [S] does not
    exceed the threshold, and otherwise returns nil and leaves the world,
    the destination included, as it was. *)
Definition gated_by_level (S : Level) (m : Logger → Go (World Value Dest) error)
    (now : Time) (v : Value) : Prop :=
  ∀ lg w,
    (invokes_output m lg (Level_String S) now v w ↔ (S ≤ l lg)%N) ∧
    ((l lg < S)%N → m lg w = (Returned None, w)).

(** What an emission method hands to the output hook [fn], when the
    threshold lets the severity [S] through. *)
Definition hands_over (S : Level) (m : Logger → Go (World Value Dest) error)
    (tag : string) (now : Time) (payload : Value) : Prop :=
  ∀ lg fn w, (S ≤ l lg)%N →
    m (with_output (output_func fn) lg) w = fn tag now payload w.

(** An output hook that panics: no call that skips the hook behaves like it. *)
Definition panicking_hook (tag : string) (t : Time) (v : Value)
    : Go (World Value Dest) error :=
  panic (panic_other "output hook called").

(** The message the default pipeline puts in the line for a rendering [s]
    of the value. *)
Definition escaped_message (s : string) : string :=
  Replace crlfEscaper (trim_final_newline s).

(** The line the default pipeline hands to the destination. *)
Definition formatted_line (logger : Logger (Value:=Value) (Time:=Time) (Dest:=Dest))
    (tag : string) (t : Time) (s : string) : string :=
  fmt_Sprintf (lf logger)
    [box_string (UTC_Format t (tf logger)); box_string tag;
     box_string (escaped_message s)].

(** Writing one line to [out]: the bytes of the line in one [Write] call,
    whose error, if any, is the result; after a call without error, the
    newline byte in a second [Write] call whose results are dropped. *)
Definition write_line (out : Writer Dest) (line : string)
    : Go (World Value Dest) error := λ w,
  match Writer_Write out line (dest w) with
  | (Returned (_, Some e), d1) => (Returned (Some e), set_dest d1 w)
  | (Returned (_, None), d1) =>
      match Writer_Write out newline d1 with
      | (Returned _, d2) => (Returned None, set_dest d2 w)
      | (Panicked p, d2) => (Panicked p, set_dest d2 w)
      end
  | (Panicked p, d1) => (Panicked p, set_dest d1 w)
  end.

(** What the specification claims of a failing newline write: the error is
    the result of the pipeline. *)
Definition newline_error_is_returned (logger : Logger) (tag : string) (t : Time)
    (v : Value) (w : World Value Dest) : Prop :=
  ∀ s n d1 n' e d2,
    format v = (s, None) →
    Writer_Write (Out logger) (formatted_line logger tag t s) (dest w)
      = (Returned (n, None), d1) →
    Writer_Write (Out logger) newline d1 = (Returned (n', Some e), d2) →
    (default_output logger tag t v w).1 = Returned (Some e).

End Notions.

(* ================================================================== *)
(** * Concrete values, clocks and destinations
    Small instances on which the definitions run. *)

(** Strings, integers, values of a type with [Format] and [String]
    methods, and values wrapped with a call stack. *)
Inductive val : Type :=
| Vstring (s : string)
| Vint (n : Z)
| Vmessager (m : Messager)
| Vstack (v : val) (skip : Z).

Fixpoint val_Sprint (v : val) : string :=
  match v with
  | Vstring s => s
  | Vint n => pretty n
  | Vmessager m => Messager_String m
  | Vstack v' _ => val_Sprint v'
  end.

(** A formatter that knows the verb [%s] only. *)
Fixpoint val_Sprintf (fmt : string) (a : list val) : string :=
  match fmt with
  | EmptyString => EmptyString
  | String c rest =>
      match rest with
      | String c' rest' =>
          if Ascii.eqb c "%" && Ascii.eqb c' "s" then
            match a with
            | x :: a' => val_Sprint x +:+ val_Sprintf rest' a'
            | [] => val_Sprintf rest' []
            end
          else String c (val_Sprintf rest a)
      | EmptyString => String c EmptyString
      end
  end.

#[export] Instance val_GoValue : GoValue val := {|
  as_Messager v := match v with Vmessager m => Some m | _ => None end;
  fmt_Sprint := val_Sprint;
  fmt_Sprintf := val_Sprintf;
  box_string := Vstring;
  box_int := Vint;
  ErrorWithStack := Vstack
|}.

(** A clock that counts seconds and prints the count. *)
#[export] Instance nat_GoTime : GoTime nat := {|
  UTC_Format t layout := pretty t
|}.

(** A [bytes.Buffer]: a write appends and never fails. *)
Definition Buffer_Writer : Writer string :=
  mkWriter (λ p buf, (Returned (Z.of_nat (String.length p), None), buf +:+ p)).

(** A destination with room for [room] more bytes; a write that does not
    fit is refused whole. *)
Record Quota : Type := mkQuota { written : string; room : nat }.

Definition Quota_Writer : Writer Quota :=
  mkWriter (λ p q,
    if (String.length p <=? room q)%nat
    then (Returned (Z.of_nat (String.length p), None),
          mkQuota (written q +:+ p) (room q - String.length p))
    else (Returned (0%Z, Some (errors_New "no space left on device")), q)).

(** An output hook that records the tag and the value it is called with. *)
Definition recording_hook (tag : string) (t : nat) (v : val)
    : Go (World val (list (string * val))) error :=
  λ w, (Returned None, set_dest (dest w ++ [(tag, v)])%list w).

(** A logger as [New] leaves it, over destination [out], with hooks
    [i] and [c] in the [init] and [consume] fields. *)
Definition new_logger {Dest} (out : Writer Dest)
    (i c : Log → gear_Context → Go (World val Dest) unit) : Logger :=
  mkLogger (Time:=nat) out DebugLevel "2006-01-02T15:04:05.999Z" "[%s] %s %s" i c output_New.

Definition no_hook {Dest} (log : Log) (ctx : gear_Context)
    : Go (World val Dest) unit := mret tt.

(** A consume hook that panics. *)
Definition panicking_consume {Dest} (log : Log) (ctx : gear_Context)
    : Go (World val Dest) unit := panic (panic_other "consume hook called").

(** A destination that drops what it is given. *)
Definition Discard_Writer {Dest} : Writer Dest :=
  mkWriter (λ p d, (Returned (Z.of_nat (String.length p), None), d)).

Definition buffer_logger : Logger := new_logger Buffer_Writer no_hook no_hook.
Definition quota_logger : Logger := new_logger Quota_Writer no_hook no_hook.
Definition recording_logger : Logger :=
  with_output (output_func recording_hook) (new_logger Discard_Writer no_hook no_hook).

(** A world with no records yet. *)
Definition fresh_world {Dest} (d : Dest) : World val Dest := mkWorld ∅ d.

(** Two records sharing the key [both]. *)
Definition two_records : gmap loc (gmap string val) :=
  {[ 1%positive := {[ "key" := Vstring "foo"; "both" := Vint 1 ]};
     2%positive := {[ "key2" := Vstring "foo2"; "both" := Vint 2 ]} ]}.

(** A value whose [Format] fails. *)
Definition failing_messager : Messager :=
  mkMessager (EmptyString, Some (errors_New "json: unsupported type"))
             "Log{ch:(chan int)(0xc0)}".
Definition unrenderable : val := Vmessager failing_messager.

(** A value whose [Format] succeeds. *)
Definition working_messager : Messager := mkMessager ("{}", None) "Log{".
Definition renderable : val := Vmessager working_messager.

(** A message with a carriage return, a line feed, and a final line feed. *)
Definition two_line_message : string :=
  "a" +:+ String CR (String LF EmptyString) +:+ "b" +:+ newline.

(** A world whose only record, at address 1, has no keys. *)
Definition world_with_empty_record : World val string :=
  mkWorld {[ 1%positive := ∅ ]} "".

(** A request context whose attached record is the one at address 1. *)
Definition ctx_ok : gear_Context := mkContext (Some 1%positive) 200 "OK".

(* ================================================================== *)
(** * The rest of the package: records *)

(** The verb [%#v] of [fmt]: the Go-syntax rendering of a value. *)
Class GoSyntax (Value : Type) : Type := {
  fmt_GoSyntax : Value → string
}.

Section LogRendering.
Context {Value : Type} `{!GoSyntax Value}.

(** The loop of [GoString] over the pairs [range] yields: [count] is the
    counter, decremented before it is tested; [buf] is the buffer.
    [fmt.Fprintf(buf, "%s:%#v}", key, value)] appends the key, a colon, the
    Go-syntax rendering of the value and the closing brace. *)
Fixpoint GoString_loop (kvs : list (string * Value)) (count : Z) (buf : string)
    : string :=
  match kvs with
  | [] => buf
  | kv :: kvs' =>
      let count := (count - 1)%Z in
      if (count =? 0)%Z
      then GoString_loop kvs' count (buf +:+ kv.1 +:+ ":" +:+ fmt_GoSyntax kv.2 +:+ "}")
      else GoString_loop kvs' count (buf +:+ kv.1 +:+ ":" +:+ fmt_GoSyntax kv.2 +:+ ", ")
  end.

(** [func (l Log) GoString() string] *)
Definition Log_GoString (l : Log) : Go (gmap loc (gmap string Value)) string :=
  count ← map_len l;
  kvs ← map_range l;
  mret (GoString_loop kvs (Z.of_nat count) "Log{").

(** [func (l Log) String() string] *)
Definition Log_String (l : Log) : Go (gmap loc (gmap string Value)) string :=
  Log_GoString l.

(** One pair as [GoString] prints it, and pairs separated by a comma and
    a space. *)
Definition pair_text (kv : string * Value) : string :=
  kv.1 +:+ ":" +:+ fmt_GoSyntax kv.2.

Fixpoint joined_pairs (kvs : list (string * Value)) : string :=
  match kvs with
  | [] => EmptyString
  | [kv] => pair_text kv
  | kv :: kvs' => pair_text kv +:+ ", " +:+ joined_pairs kvs'
  end.

(** [l[key]] read as a value and a presence flag. *)
Definition map_lookup (r : Log) (key : string)
    : Go (gmap loc (gmap string Value)) (option Value) := λ h,
  (Returned (map_of h r !! key), h).

End LogRendering.

(** How many bytes of [s] are CR or LF. *)
Fixpoint line_breaks (s : string) : nat :=
  match s with
  | EmptyString => 0
  | String b s' =>
      (if Ascii.eqb b CR || Ascii.eqb b LF then 1 else 0) + line_breaks s'
  end.

(* ================================================================== *)
(** * The rest of the package: the logger *)

(** [fmt.Sprint(a...)] and [fmt.Sprintln(a...)] on an argument list. *)
Class GoPrint (Value : Type) : Type := {
  fmt_Sprint_args : list Value → string;
  fmt_Sprintln : list Value → string
}.

(** What ends a call of [Panic]: the [panic(err)] of its last line, or a
    panic raised inside the output hook. *)
Inductive unwinding (Value : Type) : Type :=
| panic_with (err : Value)
| panic_inside (p : PanicValue).
Arguments panic_with {Value} err.
Arguments panic_inside {Value} p.

Section LoggerRest.
Context {Value Time Dest : Type} `{!GoValue Value, !GoTime Time, !GoPrint Value}.

Local Abbreviation World' := (World Value Dest).
Local Abbreviation Logger' := (Logger (Value:=Value) (Time:=Time) (Dest:=Dest)).

Definition with_tf (timeFormat : string) (lg : Logger') : Logger' :=
  mkLogger (Out lg) (l lg) timeFormat (lf lg) (init lg) (consume lg) (output lg).
Definition with_lf (logFormat : string) (lg : Logger') : Logger' :=
  mkLogger (Out lg) (l lg) (tf lg) logFormat (init lg) (consume lg) (output lg).
Definition with_init (fn : Log → gear_Context → Go World' unit) (lg : Logger')
    : Logger' :=
  mkLogger (Out lg) (l lg) (tf lg) (lf lg) fn (consume lg) (output lg).

(** [func (l *Logger) SetTimeFormat(timeFormat string) *Logger] *)
Definition Logger_SetTimeFormat (timeFormat : string) : Go Logger' Logger' := λ lg,
  (Returned (with_tf timeFormat lg), with_tf timeFormat lg).

(** [func (l *Logger) SetLogFormat(logFormat string) *Logger] *)
Definition Logger_SetLogFormat (logFormat : string) : Go Logger' Logger' := λ lg,
  (Returned (with_lf logFormat lg), with_lf logFormat lg).

(** [func (l *Logger) SetLogInit(fn) *Logger] *)
Definition Logger_SetLogInit (fn : Log → gear_Context → Go World' unit)
    : Go Logger' Logger' := λ lg,
  (Returned (with_init fn lg), with_init fn lg).

(** [func (l *Logger) Print(args ...interface{})]: [fmt.Fprint] hands the
    rendering to [l.Out] in one [Write] call; what the call returns is
    dropped. *)
Definition Logger_Print (lg : Logger') (args : list Value) : Go World' unit :=
  in_dest (Writer_Write (Out lg) (fmt_Sprint_args args)) ;; mret tt.

(** [func (l *Logger) Printf(format string, args ...interface{})] *)
Definition Logger_Printf (lg : Logger') (fmt : string) (args : list Value)
    : Go World' unit :=
  Fprintf (Out lg) fmt args ;; mret tt.

(** [func (l *Logger) Println(args ...interface{})] *)
Definition Logger_Println (lg : Logger') (args : list Value) : Go World' unit :=
  in_dest (Writer_Write (Out lg) (fmt_Sprintln args)) ;; mret tt.

(** [func (l *Logger) Panic(v interface{})]: the call never returns. *)
Definition Logger_Panic (lg : Logger') (now : Time) (v : Value)
    : World' → unwinding Value * World' := λ w,
  let err := ErrorWithStack v 2 in
  match Logger_Output lg (Level_String EmergLevel) now err w with
  | (Returned _, w') => (panic_with err, w')
  | (Panicked p, w') => (panic_inside p, w')
  end.

(** [func (l *Logger) Fatal(v interface{})], over the function the package
    variable [exit] holds. *)
Definition Logger_Fatal (exit : Go World' unit) (lg : Logger') (now : Time) (v : Value)
    : Go World' unit :=
  Logger_Output lg (Level_String EmergLevel) now (ErrorWithStack v 2) ;;
  exit.

(** [func (l *Logger) New(ctx *gear.Context) (interface{}, error)] *)
Definition Logger_New (lg : Logger') (ctx : gear_Context) : Go World' (Log * error) :=
  log ← in_heap map_make;
  init lg log ctx ;;
  mret (log, None).

(** [func (l *Logger) SetTo(ctx *gear.Context, key string, val interface{})] *)
Definition Logger_SetTo (lg : Logger') (ctx : gear_Context) (key : string) (val : Value)
    : Go World' unit :=
  in_heap (map_assign (ctx_Any ctx) key val).

End LoggerRest.

(* ================================================================== *)
(** * The rest of the package: the hooks of [New] and the default logger *)

(** What the hooks need of values, of [time] and of the request context.
    [gear.Context] is not under the logging sources: its accessors and its
    error sink are parameters. *)
Class GoHost (Value Time Dest : Type) `{!GoValue Value} : Type := {
  nil_Value : Value;                 (* the nil interface value *)
  box_Time : Time → Value;           (* a [time.Time] as [interface{}] *)
  box_Duration : Z → Value;          (* a [time.Duration], in nanoseconds *)
  box_millis : Z → Value;            (* [float64(d) / 1e6] for a duration [d] *)
  box_Log : Log → Value;             (* a [Log] as [interface{}] *)
  as_Time : Value → option Time;     (* [v.(time.Time)] *)
  as_int : Value → option Z;         (* [v.(int)] *)
  Time_Sub : Time → Time → Z;        (* [t.Sub(u)], in nanoseconds *)
  strconv_Itoa : Z → string;
  ctx_IP : gear_Context → string;        (* [ctx.IP().String()] *)
  ctx_Method : gear_Context → string;    (* [ctx.Method] *)
  ctx_URL : gear_Context → string;       (* [ctx.Req.URL.String()] *)
  ctx_Proto : gear_Context → string;     (* [ctx.Req.Proto] *)
  ctx_UserAgent : gear_Context → string; (* [ctx.GetHeader(gear.HeaderUserAgent)] *)
  ctx_LogErr : gear_Context → error_value → Go (World Value Dest) unit;
  as_Time_box : ∀ t, as_Time (box_Time t) = Some t;
  as_int_box : ∀ n, as_int (box_int n) = Some n;
  as_Time_nil : as_Time nil_Value = None;
  as_int_nil : as_int nil_Value = None
}.

(** Modelled from the spec: the colour constants belong to a file of the
    package that is not under the sources; the status classes are green,
    cyan, yellow and red. *)
Inductive ColorType : Type := ColorGreen | ColorCyan | ColorYellow | ColorRed.

(** [func colorStatus(code int) ColorType] *)
Definition colorStatus (code : Z) : ColorType :=
  if (code <? 300)%Z then ColorGreen
  else if (300 <=? code)%Z && (code <? 400)%Z then ColorCyan
  else if (400 <=? code)%Z && (code <? 500)%Z then ColorYellow
  else ColorRed.

(** The double quote, and the format of the middle of a development line:
    [ - - [%s] "%s %s %s" ]. *)
Definition dquote : string := String "034"%char EmptyString.
Definition access_format : string :=
  " - - [%s] " +:+ dquote +:+ "%s %s %s" +:+ dquote +:+ " ".

Section Hooks.
Context {Value Time Dest : Type}
  `{!GoValue Value, !GoTime Time, !GoHost Value Time Dest}.

Local Abbreviation World' := (World Value Dest).
Local Abbreviation Logger' := (Logger (Value:=Value) (Time:=Time) (Dest:=Dest)).

(** The [init] closure of [New]; [now] is what [time.Now()] returns. *)
Definition default_init (now : Time) (log : Log) (ctx : gear_Context)
    : Go World' unit :=
  in_heap (map_assign log "IP" (box_string (ctx_IP ctx))) ;;
  in_heap (map_assign log "Method" (box_string (ctx_Method ctx))) ;;
  in_heap (map_assign log "URL" (box_string (ctx_URL ctx))) ;;
  in_heap (map_assign log "Proto" (box_string (ctx_Proto ctx))) ;;
  in_heap (map_assign log "UserAgent" (box_string (ctx_UserAgent ctx))) ;;
  in_heap (map_assign log "Start" (box_Time now)).

(** The pairs the [init] closure of [New] stores, in the order it stores
    them, on top of [m]. *)
Definition request_fields (now : Time) (ctx : gear_Context)
    (m : gmap string Value) : gmap string Value :=
  <["Start" := box_Time now]>
    (<["UserAgent" := box_string (ctx_UserAgent ctx)]>
       (<["Proto" := box_string (ctx_Proto ctx)]>
          (<["URL" := box_string (ctx_URL ctx)]>
             (<["Method" := box_string (ctx_Method ctx)]>
                (<["IP" := box_string (ctx_IP ctx)]> m))))).

(** The second half of the [consume] closure of [New]: the call of
    [logger.Output] and the report of its error. *)
Definition emit_and_report (logger : Logger') (end_ : Time) (log : Log)
    (ctx : gear_Context) : Go World' unit :=
  err ← Logger_Output logger (Level_String InfoLevel) end_ (box_Log log);
  match err with
  | Some e => ctx_LogErr ctx e
  | None => mret tt
  end.

(** The [consume] closure of [New], over the logger [New] builds;
    [end_] is what [time.Now()] returns.  [end.Sub(t) / 1e6] is an integer
    division of durations. *)
Definition default_consume (logger : Logger') (end_ : Time) (log : Log)
    (ctx : gear_Context) : Go World' unit :=
  start ← in_heap (map_lookup log "Start");
  match start ≫= as_Time with
  | Some t =>
      in_heap (map_assign log "Time"
                 (box_Duration (Z.quot (Time_Sub end_ t) 1000000)))
  | None => mret tt
  end ;;
  emit_and_report logger end_ log ctx.

(** [log[key]] as an [interface{}]: nil when the key is missing. *)
Definition map_index (log : Log) (key : string) : Go World' Value :=
  v ← in_heap (map_lookup log key); mret (default nil_Value v).

(** [func developmentConsume(log Log, ctx *gear.Context)], over the default
    logger [std] and the helper [FprintWithColor], which is in a file of the
    package that is not under the sources.  A failed type assertion
    panics. *)
Definition developmentConsume
    (FprintWithColor : Writer Dest → string → ColorType → Go World' (Z * error))
    (std : Logger') (end_ : Time) (log : Log) (ctx : gear_Context)
    : Go World' unit :=
  ip ← map_index log "IP";
  FprintWithColor (Out std) (fmt_Sprintf "%s" [ip]) ColorGreen ;;
  method ← map_index log "Method";
  url ← map_index log "URL";
  proto ← map_index log "Proto";
  Fprintf (Out std) access_format
    [box_string (UTC_Format end_ (tf std)); method; url; proto] ;;
  status_v ← map_index log "Status";
  match as_int status_v with
  | None => panic (panic_other "interface conversion: interface {} is not int")
  | Some status =>
      FprintWithColor (Out std) (strconv_Itoa status) (colorStatus status) ;;
      start_v ← map_index log "Start";
      match as_Time start_v with
      | None => panic (panic_other "interface conversion: interface {} is not time.Time")
      | Some start =>
          length_v ← map_index log "Length";
          in_dest (Writer_Write (Out std)
                     (fmt_Sprintf " %d %.3fms"
                        [length_v; box_millis (Time_Sub end_ start)] +:+ newline)) ;;
          mret tt
      end
  end.

(** [func Default(devMode ...bool) *Logger], on the default logger [std];
    [dev] is the function [developmentConsume] as a hook. *)
Definition Default (dev : Log → gear_Context → Go World' unit) (devMode : list bool)
    : Go Logger' Logger' :=
  match devMode with
  | true :: _ => Logger_SetLogConsume dev
  | _ => λ std, (Returned std, std)
  end.

End Hooks.

(* ================================================================== *)
(** * Concrete values and a console for the hooks *)

#[export] Instance val_GoSyntax : GoSyntax val := {|
  fmt_GoSyntax v :=
    match v with
    | Vstring s => dquote +:+ s +:+ dquote
    | other => val_Sprint other
    end
|}.

(** The values a request record holds: strings, integers, instants (in
    seconds), durations, records, and the nil interface value. *)
Inductive hval : Type :=
| Hnil
| Hstring (s : string)
| Hint (n : Z)
| Htime (t : nat)
| Hduration (d : Z)
| Hmillis (d : Z)
| Hlog (l : Log)
| Hstack (v : hval) (skip : Z).

Fixpoint hval_Sprint (v : hval) : string :=
  match v with
  | Hnil => "<nil>"
  | Hstring s => s
  | Hint n => pretty n
  | Htime t => pretty t
  | Hduration d => pretty d
  | Hmillis d => pretty (d `quot` 1000000)%Z
  | Hlog _ => "Log{"
  | Hstack v' _ => hval_Sprint v'
  end.

(** A formatter that fills each verb (a percent sign up to the next
    letter) with the next argument. *)
Fixpoint hval_Sprintf_go (in_verb : bool) (fmt : string) (a : list hval) : string :=
  match fmt with
  | EmptyString => EmptyString
  | String c rest =>
      if in_verb then
        if (Ascii.leb "a" c && Ascii.leb c "z")%bool
        then match a with
             | x :: a' => hval_Sprint x +:+ hval_Sprintf_go false rest a'
             | [] => hval_Sprintf_go false rest []
             end
        else hval_Sprintf_go true rest a
      else if Ascii.eqb c "%" then hval_Sprintf_go true rest a
      else String c (hval_Sprintf_go false rest a)
  end.

#[export] Instance hval_GoValue : GoValue hval := {|
  as_Messager v :=
    match v with
    | Hlog _ => Some (mkMessager ("{}", None) "Log{")
    | _ => None
    end;
  fmt_Sprint := hval_Sprint;
  fmt_Sprintf := hval_Sprintf_go false;
  box_string := Hstring;
  box_int := Hint;
  ErrorWithStack := Hstack
|}.

(** A console: the text on the screen, the errors reported to the host,
    and the calls a recording hook has seen. *)
Record Console : Type := mkConsole {
  screen : string;
  reported : list error_value;
  seen : list (string * hval)
}.

Definition Console_Writer : Writer Console :=
  mkWriter (λ p c, (Returned (Z.of_nat (String.length p), None),
                    mkConsole (screen c +:+ p) (reported c) (seen c))).

#[export, refine] Instance hval_GoHost : GoHost hval nat Console := {|
  nil_Value := Hnil;
  box_Time := Htime;
  box_Duration := Hduration;
  box_millis := Hmillis;
  box_Log := Hlog;
  as_Time v := match v with Htime t => Some t | _ => None end;
  as_int v := match v with Hint n => Some n | _ => None end;
  Time_Sub t u := ((Z.of_nat t - Z.of_nat u) * 1000000000)%Z;
  strconv_Itoa := pretty;
  ctx_IP ctx := "127.0.0.1";
  ctx_Method ctx := "GET";
  ctx_URL ctx := "/";
  ctx_Proto ctx := "HTTP/1.1";
  ctx_UserAgent ctx := "curl";
  ctx_LogErr ctx e := λ w,
    (Returned tt,
     set_dest (mkConsole (screen (dest w)) (reported (dest w) ++ [e])%list (seen (dest w))) w)
|}.
Proof. all: reflexivity. Defined.

(** A colour printer that prints the text and drops the colour. *)
Definition plain_FprintWithColor (out : Writer Console) (text : string) (c : ColorType)
    : Go (World hval Console) (Z * error) :=
  in_dest (Writer_Write out text).

(** An output hook that records its call and returns the given error. *)
Definition console_hook (result : error) (tag : string) (t : nat) (v : hval)
    : Go (World hval Console) error :=
  λ w, (Returned result,
        set_dest (mkConsole (screen (dest w)) (reported (dest w))
                            (seen (dest w) ++ [(tag, v)])%list) w).

Definition console_logger : Logger :=
  mkLogger (Time:=nat) Console_Writer DebugLevel "2006-01-02T15:04:05.999Z" "[%s] %s %s"
    (default_init 100) (λ log ctx, mret tt) output_New.

Definition blank_console : Console := mkConsole "" [] [].

(** Two orderings of the same two pairs. *)
Definition pairs_ab : list (string * val) := [("a", Vint 1); ("b", Vint 2)].
Definition pairs_ba : list (string * val) := [("b", Vint 2); ("a", Vint 1)].

(** [fmt.Sprint] on a list of operands: a space goes between two operands
    when neither is a string; [fmt.Sprintln] always puts one and ends the
    line. *)
Definition is_Vstring (v : val) : bool :=
  match v with Vstring _ => true | _ => false end.

Fixpoint val_Sprint_args (a : list val) : string :=
  match a with
  | [] => EmptyString
  | x :: rest =>
      match rest with
      | [] => val_Sprint x
      | y :: _ =>
          val_Sprint x +:+ (if is_Vstring x || is_Vstring y then "" else " ")
            +:+ val_Sprint_args rest
      end
  end.

Fixpoint val_Sprintln_args (a : list val) : string :=
  match a with
  | [] => EmptyString
  | x :: rest =>
      match rest with
      | [] => val_Sprint x
      | _ :: _ => val_Sprint x +:+ " " +:+ val_Sprintln_args rest
      end
  end.

#[export] Instance val_GoPrint : GoPrint val := {|
  fmt_Sprint_args := val_Sprint_args;
  fmt_Sprintln a := val_Sprintln_args a +:+ newline
|}.

(** A console world whose only record, at address 1, has no keys, and one
    whose record holds a key and no start instant, as after [Reset] and
    [SetTo]. *)
Definition console_world : World hval Console :=
  mkWorld {[ 1%positive := ∅ ]} blank_console.
Definition world_without_Start : World hval Console :=
  mkWorld {[ 1%positive := {[ "user" := Hstring "bob" ]} ]} blank_console.

(* ================================================================== *)
(** * Running computations *)

(** Splits a goal into its conjuncts, without unfolding definitions. *)
Ltac split_conjuncts := repeat match goal with |- _ ∧ _ => split end.

Lemma Go_bind_returned {S A B} (m : Go S A) (k : A → Go S B) (s : S) (a : A) (s' : S) :
  m s = (Returned a, s') → (m ≫= k) s = k a s'.
Proof. intros Hm. unfold mbind, Go_bind. by rewrite Hm. Qed.

Lemma Go_bind_panicked {S A B} (m : Go S A) (k : A → Go S B) (s : S) p (s' : S) :
  m s = (Panicked p, s') → (m ≫= k) s = (Panicked p, s').
Proof. intros Hm. unfold mbind, Go_bind. by rewrite Hm. Qed.

Lemma zoom_returned {S T A} (get : T → S) (set : S → T → T) (m : Go S A) t a s' :
  m (get t) = (Returned a, s') → zoom get set m t = (Returned a, set s' t).
Proof. intros Hm. unfold zoom. by rewrite Hm. Qed.

(* ================================================================== *)
(** * Severity levels: display *)

Lemma Level_String_defined :
  Level_String EmergLevel = "EMERG" ∧ Level_String AlertLevel = "ALERT" ∧
  Level_String CritiLevel = "CRIT" ∧ Level_String ErrLevel = "ERR" ∧
  Level_String WarningLevel = "WARNING" ∧ Level_String NoticeLevel = "NOTICE" ∧
  Level_String InfoLevel = "INFO" ∧ Level_String DebugLevel = "DEBUG".
Proof. repeat split. Qed.

Lemma Level_String_undefined (lv : Level) :
  (DebugLevel < lv)%N → Level_String lv = "LOG".
Proof.
  unfold DebugLevel. intros Hlt. unfold Level_String.
  repeat match goal with
         | |- context [(lv =? ?c)%N] =>
             let E := fresh "E" in
             destruct (N.eqb_spec lv c) as [E | E];
             [ unfold c in E; lia | clear E ]
         end.
  reflexivity.
Qed.

(** C10.  For each of the eight defined ordinals 0..7 the display
    operation returns the canonical short name (EMERG, ALERT, CRIT, ERR,
    WARNING, NOTICE, INFO, DEBUG), and for every level value outside
    0..7 it returns the fixed string LOG. *)
Theorem Level_String_total (lv : Level) :
  Level_String lv =
    match lv with
    | 0%N => "EMERG" | 1%N => "ALERT" | 2%N => "CRIT" | 3%N => "ERR"
    | 4%N => "WARNING" | 5%N => "NOTICE" | 6%N => "INFO" | 7%N => "DEBUG"
    | _ => "LOG"
    end
  ∧ ((7 < lv)%N ↔ Level_String lv = "LOG").
Proof.
  split.
  - destruct (decide (7 < lv)%N) as [Hout | Hin].
    + rewrite (Level_String_undefined lv Hout).
      destruct lv as [| [[[| |] | [| |] |] | [[| |] | [| |] |] |]]; try lia; reflexivity.
    + assert (Hcases : lv ∈ [0; 1; 2; 3; 4; 5; 6; 7]%N).
      { rewrite !elem_of_cons. lia. }
      rewrite !elem_of_cons, elem_of_nil in Hcases.
      destruct Hcases as [-> | [-> | [-> | [-> | [-> | [-> | [-> | [-> | []]]]]]]]];
        reflexivity.
  - split; [apply Level_String_undefined |].
    intros Hlog. destruct (decide (7 < lv)%N) as [Hout | Hin]; [done |].
    exfalso.
    assert (Hcases : lv ∈ [0; 1; 2; 3; 4; 5; 6; 7]%N).
    { rewrite !elem_of_cons. lia. }
    rewrite !elem_of_cons, elem_of_nil in Hcases.
    destruct Hcases as [-> | [-> | [-> | [-> | [-> | [-> | [-> | [-> | []]]]]]]]];
      discriminate Hlog.
Qed.

(* ================================================================== *)
(** * The threshold setter *)

Section Setter.
Context {Value Time Dest : Type} `{!GoValue Value, !GoTime Time}.
Implicit Types lg : Logger (Value:=Value) (Time:=Time) (Dest:=Dest).

Lemma with_l_fields level lg :
  l (with_l level lg) = level ∧ Out (with_l level lg) = Out lg ∧
  tf (with_l level lg) = tf lg ∧ lf (with_l level lg) = lf lg ∧
  init (with_l level lg) = init lg ∧ consume (with_l level lg) = consume lg ∧
  output (with_l level lg) = output lg.
Proof. repeat split. Qed.

Lemma SetLevel_in_range level lg :
  (level ≤ DebugLevel)%N →
  Logger_SetLevel level lg = (Returned (with_l level lg), with_l level lg).
Proof.
  intros Hle. unfold Logger_SetLevel.
  destruct (N.ltb_spec DebugLevel level) as [Hlt | _]; [lia | reflexivity].
Qed.

Lemma SetLevel_out_of_range level lg :
  (DebugLevel < level)%N →
  Logger_SetLevel level lg = (Panicked (gear_Err_WithMsg "invalid logger level"), lg).
Proof.
  intros Hlt. unfold Logger_SetLevel.
  destruct (N.ltb_spec DebugLevel level) as [_ | Hle]; [reflexivity | lia].
Qed.

(** C4.  For every level value outside the ordinal range 0..7 the
    threshold setter panics with the configuration error and leaves the
    logger, its threshold included, as it was; for every value inside the
    range it stores the value as the threshold, changes no other field, and
    returns the logger. *)
Theorem SetLevel_checks_range (level : Level) lg :
  ((7 < level)%N →
     Logger_SetLevel level lg
       = (Panicked (gear_Err_WithMsg "invalid logger level"), lg)) ∧
  ((level ≤ 7)%N →
     ∃ lg', Logger_SetLevel level lg = (Returned lg', lg') ∧
            l lg' = level ∧ Out lg' = Out lg ∧ tf lg' = tf lg ∧ lf lg' = lf lg ∧
            init lg' = init lg ∧ consume lg' = consume lg ∧ output lg' = output lg).
Proof.
  split.
  - apply SetLevel_out_of_range.
  - intros Hle. exists (with_l level lg). split.
    + by apply SetLevel_in_range.
    + apply with_l_fields.
Qed.

End Setter.

(* ================================================================== *)
(** * The formatter *)

Section Formatter.
Context {Value : Type} `{!GoValue Value}.

Lemma format_Messager_ok (i : Value) m str :
  as_Messager i = Some m → Messager_Format m = (str, None) →
  format i = (str, None).
Proof. intros Hm Hf. unfold format. by rewrite Hm, Hf. Qed.

Lemma format_Messager_err (i : Value) m str e :
  as_Messager i = Some m → Messager_Format m = (str, Some e) →
  format i = (Messager_String m, Some e).
Proof. intros Hm Hf. unfold format. by rewrite Hm, Hf. Qed.

Lemma format_default (i : Value) :
  as_Messager i = None → format i = (fmt_Sprint i, None).
Proof. intros Hm. unfold format. by rewrite Hm. Qed.

(** An error from [format] can only be the one [Format] returned. *)
Lemma format_error_origin (i : Value) s e :
  format i = (s, Some e) →
  ∃ m str, as_Messager i = Some m ∧ Messager_Format m = (str, Some e) ∧
           s = Messager_String m.
Proof.
  unfold format. destruct (as_Messager i) as [m |] eqn:Hm; [| discriminate].
  destruct (Messager_Format m) as [str [e' |]] eqn:Hf; intros [= <- <-].
  by exists m, str.
Qed.

(** C9.  For every value: if it exposes the Messager capability and its
    structured render succeeds, the formatter returns that string and no
    error; if the structured render fails, the formatter returns the
    value's debug render ([String]) together with the render's error; if
    the value does not expose the capability, the formatter returns the
    default stringification ([fmt.Sprint]) and no error. *)
Theorem format_by_capability (i : Value) :
  (∀ m str, as_Messager i = Some m → Messager_Format m = (str, None) →
            format i = (str, None)) ∧
  (∀ m str e, as_Messager i = Some m → Messager_Format m = (str, Some e) →
              format i = (Messager_String m, Some e)) ∧
  (as_Messager i = None → format i = (fmt_Sprint i, None)).
Proof.
  split; [| split].
  - intros m str. apply format_Messager_ok.
  - intros m str e. apply format_Messager_err.
  - apply format_default.
Qed.

End Formatter.

(* ================================================================== *)
(** * The emission methods *)

Section Emission.
Context {Value Time Dest : Type} `{!GoValue Value, !GoTime Time}.
Implicit Types lg : Logger (Value:=Value) (Time:=Time) (Dest:=Dest).
Implicit Types w : World Value Dest.

Lemma checkLogLevel_true lg level :
  checkLogLevel lg level = true ↔ (level ≤ l lg)%N.
Proof. unfold checkLogLevel. apply N.leb_le. Qed.

Lemma checkLogLevel_false lg level :
  checkLogLevel lg level = false ↔ (l lg < level)%N.
Proof. unfold checkLogLevel. apply N.leb_gt. Qed.

Lemma checkLogLevel_with_output lg fn level :
  checkLogLevel (with_output fn lg) level = checkLogLevel lg level.
Proof. reflexivity. Qed.

(** The shape all the guarded methods have. *)
Lemma guarded_method_gated (S : Level) (m : Logger → Go (World Value Dest) error)
    (now : Time) (v : Value) :
  (∀ lg, m lg = if checkLogLevel lg S
                then Logger_Output lg (Level_String S) now v
                else mret None) →
  gated_by_level S m now v.
Proof.
  intros Hm lg w. split; [split |].
  - intros [_ Hfn].
    destruct (checkLogLevel lg S) eqn:Hc; [by apply checkLogLevel_true |].
    specialize (Hfn panicking_hook).
    rewrite Hm, checkLogLevel_with_output, Hc in Hfn. discriminate Hfn.
  - intros Hle. apply checkLogLevel_true in Hle. split.
    + by rewrite Hm, Hle.
    + intros fn. by rewrite Hm, checkLogLevel_with_output, Hle.
  - intros Hlt. apply checkLogLevel_false in Hlt. by rewrite Hm, Hlt.
Qed.

(** C1.  For every threshold and every severity among Alert, Critical,
    Error, Warning, Notice, Informational and Debug (and the formatted
    Debug variant), the emission method invokes the output pipeline if and
    only if the severity's ordinal does not exceed the threshold's; when it
    exceeds it the method returns nil and nothing is written to the
    destination (the world is left as it was). *)
Theorem leveled_methods_gated (now : Time) (v : Value) (fmt : string)
    (args : list Value) :
  gated_by_level AlertLevel (λ lg, Logger_Alert lg now v) now (ErrorWithStack v 2) ∧
  gated_by_level CritiLevel (λ lg, Logger_Crit lg now v) now (ErrorWithStack v 2) ∧
  gated_by_level ErrLevel (λ lg, Logger_Err lg now v) now (ErrorWithStack v 2) ∧
  gated_by_level WarningLevel (λ lg, Logger_Warning lg now v) now v ∧
  gated_by_level NoticeLevel (λ lg, Logger_Notice lg now v) now v ∧
  gated_by_level InfoLevel (λ lg, Logger_Info lg now v) now v ∧
  gated_by_level DebugLevel (λ lg, Logger_Debug lg now v) now v ∧
  gated_by_level DebugLevel (λ lg, Logger_Debugf lg now fmt args) now
    (box_string (fmt_Sprintf fmt args)).
Proof.
  split_conjuncts; apply guarded_method_gated; intros lg; reflexivity.
Qed.

Lemma Emerg_invokes lg (now : Time) (v : Value) w :
  invokes_output (λ lg, Logger_Emerg lg now v) lg "EMERG" now (ErrorWithStack v 2) w.
Proof. split; [reflexivity | intros fn; reflexivity]. Qed.

(** C6.  For every configured threshold, the Emergency method invokes the
    output pipeline, on the tag EMERG and the given value wrapped into an
    error with call stack: no threshold is consulted. *)
Theorem Emerg_ignores_threshold (T : Level) lg (now : Time) (v : Value) w :
  invokes_output (λ lg, Logger_Emerg lg now v) (with_l T lg)
    "EMERG" now (ErrorWithStack v 2) w.
Proof. apply Emerg_invokes. Qed.

Lemma guarded_method_hands_over (S : Level) m tag (now : Time) (payload : Value) :
  tag = Level_String S →
  (∀ lg, m lg = if checkLogLevel lg S
                then Logger_Output lg (Level_String S) now payload
                else mret None) →
  hands_over S m tag now payload.
Proof.
  intros -> Hm lg fn w Hle. apply checkLogLevel_true in Hle.
  by rewrite Hm, checkLogLevel_with_output, Hle.
Qed.

(** C7.  For every input value, the Emergency, Alert, Critical and Error
    methods pass the output pipeline the value wrapped by
    [gear.ErrorWithStack(v, 2)]; the Warning, Notice, Informational and
    Debug methods pass the value itself, and the formatted Debug method
    passes the formatted string, unwrapped. *)
Theorem payload_wrapping (now : Time) (v : Value) (fmt : string) (args : list Value) :
  hands_over EmergLevel (λ lg, Logger_Emerg lg now v) "EMERG" now (ErrorWithStack v 2) ∧
  hands_over AlertLevel (λ lg, Logger_Alert lg now v) "ALERT" now (ErrorWithStack v 2) ∧
  hands_over CritiLevel (λ lg, Logger_Crit lg now v) "CRIT" now (ErrorWithStack v 2) ∧
  hands_over ErrLevel (λ lg, Logger_Err lg now v) "ERR" now (ErrorWithStack v 2) ∧
  hands_over WarningLevel (λ lg, Logger_Warning lg now v) "WARNING" now v ∧
  hands_over NoticeLevel (λ lg, Logger_Notice lg now v) "NOTICE" now v ∧
  hands_over InfoLevel (λ lg, Logger_Info lg now v) "INFO" now v ∧
  hands_over DebugLevel (λ lg, Logger_Debug lg now v) "DEBUG" now v ∧
  hands_over DebugLevel (λ lg, Logger_Debugf lg now fmt args) "DEBUG" now
    (box_string (fmt_Sprintf fmt args)).
Proof.
  split; [intros lg fn w _; reflexivity |].
  split_conjuncts;
    (apply guarded_method_hands_over; [reflexivity | intros lg; reflexivity]).
Qed.

End Emission.

(* ================================================================== *)
(** * Strings: trimming and escaping *)

Lemma length_snoc (s : string) (c : ascii) :
  String.length (s +:+ String c EmptyString) = S (String.length s).
Proof. induction s as [| a s IH]; simpl; [reflexivity | by rewrite IH]. Qed.

Lemma get_snoc_last (s : string) (c : ascii) :
  String.get (String.length s) (s +:+ String c EmptyString) = Some c.
Proof. induction s as [| a s IH]; simpl; [reflexivity | exact IH]. Qed.

Lemma substring_snoc (s : string) (c : ascii) :
  substring 0 (String.length s) (s +:+ String c EmptyString) = s.
Proof. induction s as [| a s IH]; simpl; [reflexivity | by rewrite IH]. Qed.

Lemma string_snoc_cases (s : string) :
  s = EmptyString ∨ ∃ s' c, s = s' +:+ String c EmptyString.
Proof.
  induction s as [| a s IH]; [by left | right].
  destruct IH as [-> | (s' & c & ->)].
  - by exists EmptyString, a.
  - by exists (String a s'), c.
Qed.

Lemma snoc_inj (s1 s2 : string) (c1 c2 : ascii) :
  s1 +:+ String c1 EmptyString = s2 +:+ String c2 EmptyString → s1 = s2 ∧ c1 = c2.
Proof.
  revert s2. induction s1 as [| a s1 IH]; intros [| b s2]; simpl; intros Heq.
  - by injection Heq as ->.
  - injection Heq as _ Heq. by destruct s2.
  - injection Heq as _ Heq. by destruct s1.
  - injection Heq as -> Heq. by destruct (IH _ Heq) as [-> ->].
Qed.

Lemma trim_final_newline_snoc (s : string) (c : ascii) :
  trim_final_newline (s +:+ String c EmptyString)
    = if decide (c = LF) then s else s +:+ String c EmptyString.
Proof.
  unfold trim_final_newline. rewrite length_snoc. simpl.
  rewrite Nat.sub_0_r, get_snoc_last, substring_snoc.
  case_bool_decide as Hc; destruct (decide (c = LF)) as [-> | Hne]; try done.
  by injection Hc.
Qed.

(** Exactly one final line feed goes, and only a final line feed. *)
Lemma trim_final_newline_spec (s : string) :
  (∃ s', s = s' +:+ newline ∧ trim_final_newline s = s') ∨
  ((∀ s', s ≠ s' +:+ newline) ∧ trim_final_newline s = s).
Proof.
  destruct (string_snoc_cases s) as [-> | (s' & c & ->)].
  - right. split; [| reflexivity]. intros [| a s']; discriminate.
  - rewrite trim_final_newline_snoc. destruct (decide (c = LF)) as [-> | Hne].
    + left. by exists s'.
    + right. split; [| reflexivity].
      intros s'' Heq. apply snoc_inj in Heq as [_ Hc]. done.
Qed.

Lemma has_byte_app (b : ascii) (s1 s2 : string) :
  has_byte b (s1 +:+ s2) = has_byte b s1 || has_byte b s2.
Proof.
  induction s1 as [| a s1 IH]; [reflexivity |].
  change (String a s1 +:+ s2) with (String a (s1 +:+ s2)).
  cbn [has_byte]. by rewrite IH, orb_assoc.
Qed.

Lemma Replace_crlfEscaper (s : string) :
  Replace crlfEscaper s = escape_spec s.
Proof.
  induction s as [| b s IH]; [reflexivity |].
  unfold crlfEscaper. cbn [Replace replacement escape_spec].
  fold crlfEscaper. rewrite IH.
  unfold escape_byte. rewrite (Ascii.eqb_sym b CR), (Ascii.eqb_sym b LF).
  destruct (Ascii.eqb CR b); [reflexivity |].
  destruct (Ascii.eqb LF b); reflexivity.
Qed.

Lemma escape_byte_clean (b : ascii) :
  has_byte CR (escape_byte b) = false ∧ has_byte LF (escape_byte b) = false.
Proof.
  unfold escape_byte.
  destruct (Ascii.eqb_spec b CR) as [-> | HCR]; [by split |].
  destruct (Ascii.eqb_spec b LF) as [-> | HLF]; [by split |].
  cbn [has_byte]. rewrite !orb_false_r. split; apply Ascii.eqb_neq; congruence.
Qed.

Lemma escape_spec_clean (s : string) :
  has_byte CR (escape_spec s) = false ∧ has_byte LF (escape_spec s) = false.
Proof.
  induction s as [| b s [IHCR IHLF]]; [by split |].
  cbn [escape_spec].
  rewrite !has_byte_app, IHCR, IHLF, !orb_false_r. apply escape_byte_clean.
Qed.

(** Escaping keeps every other byte and loses none: a byte that is neither
    CR nor LF occurs in the escaped string or is one of the two letters the
    escapes bring in. *)
Lemma escape_spec_keeps (b : ascii) (s : string) :
  b ≠ CR → b ≠ LF → has_byte b s = true → has_byte b (escape_spec s) = true.
Proof.
  intros HCR HLF. induction s as [| c s IH]; [done |].
  cbn [has_byte escape_spec].
  rewrite has_byte_app. intros [Hbc | Hin]%orb_true_iff.
  - apply Ascii.eqb_eq in Hbc as <-. unfold escape_byte.
    rewrite <- (Ascii.eqb_neq b CR) in HCR. rewrite <- (Ascii.eqb_neq b LF) in HLF.
    rewrite HCR, HLF. cbn [has_byte]. by rewrite Ascii.eqb_refl.
  - rewrite (IH Hin). apply orb_true_r.
Qed.

(* ================================================================== *)
(** * The default output pipeline *)

Section Pipeline.
Context {Value Time Dest : Type} `{!GoValue Value, !GoTime Time}.
Implicit Types logger : Logger (Value:=Value) (Time:=Time) (Dest:=Dest).
Implicit Types w : World Value Dest.

(** The pipeline is: render, and unless rendering failed, write the line
    built from the escaped message. *)
Lemma default_output_unfold logger tag (t : Time) (v : Value) :
  ∀ w, default_output logger tag t v w =
    match format v with
    | (_, Some e) => (Returned (Some e), w)
    | (s, None) => write_line (Out logger) (formatted_line logger tag t s) w
    end.
Proof.
  intros w. unfold default_output.
  destruct (format v) as [s [e |]]; [reflexivity |].
  unfold write_line, formatted_line, escaped_message, Fprintf, in_dest, zoom, newline.
  unfold mbind, Go_bind; simpl.
  destruct (Writer_Write (Out logger) _ (dest w)) as [[[n [e |]] | p] d1];
    simpl; try reflexivity.
  destruct (Writer_Write (Out logger) _ d1) as [[r | p] d2]; reflexivity.
Qed.

(** C2.  For every input value the default pipeline renders the value
    and, when rendering succeeds, puts in the line the rendering with
    exactly one final line feed removed if there is one, and then every
    carriage return replaced by the two characters backslash r and every
    line feed by backslash n; that message has no CR and no LF byte. *)
Theorem message_has_no_line_break logger tag (t : Time) (v : Value) w :
  default_output logger tag t v w =
    match format v with
    | (_, Some e) => (Returned (Some e), w)
    | (s, None) =>
        write_line (Out logger)
          (fmt_Sprintf (lf logger)
             [box_string (UTC_Format t (tf logger)); box_string tag;
              box_string (escaped_message s)]) w
    end
  ∧ ∀ s,
      escaped_message s = escape_spec (trim_final_newline s) ∧
      ((∃ s', s = s' +:+ newline ∧ trim_final_newline s = s') ∨
       ((∀ s', s ≠ s' +:+ newline) ∧ trim_final_newline s = s)) ∧
      has_byte CR (escaped_message s) = false ∧
      has_byte LF (escaped_message s) = false.
Proof.
  split; [apply default_output_unfold |].
  intros s. unfold escaped_message. rewrite Replace_crlfEscaper.
  split; [reflexivity |]. split; [apply trim_final_newline_spec |].
  apply escape_spec_clean.
Qed.

Lemma default_output_render_error logger tag (t : Time) (v : Value) w s e :
  format v = (s, Some e) →
  default_output logger tag t v w = (Returned (Some e), w).
Proof. intros Hf. by rewrite default_output_unfold, Hf. Qed.

Lemma default_output_line_error logger tag (t : Time) (v : Value) w s n e d1 :
  format v = (s, None) →
  Writer_Write (Out logger) (formatted_line logger tag t s) (dest w)
    = (Returned (n, Some e), d1) →
  default_output logger tag t v w = (Returned (Some e), set_dest d1 w).
Proof.
  intros Hf Hw. rewrite default_output_unfold, Hf. unfold write_line. by rewrite Hw.
Qed.

(** Once the line is written, the result is nil whatever the newline write
    returns. *)
Lemma default_output_line_written logger tag (t : Time) (v : Value) w s n d1 r d2 :
  format v = (s, None) →
  Writer_Write (Out logger) (formatted_line logger tag t s) (dest w)
    = (Returned (n, None), d1) →
  Writer_Write (Out logger) newline d1 = (Returned r, d2) →
  default_output logger tag t v w = (Returned None, set_dest d2 w).
Proof.
  intros Hf Hw Hnl. rewrite default_output_unfold, Hf. unfold write_line.
  by rewrite Hw, Hnl.
Qed.

(** C5 (as the code has it).  For every destination and every input
    value: if rendering fails the pipeline returns that error and writes
    nothing; otherwise it writes the formatted line in one call and, if
    that call reports an error, returns it without writing a newline; if
    the line was written without error it writes exactly one newline byte
    in a second call, and returns nil when that call reports no error
    either. *)
Theorem default_output_errors logger tag (t : Time) (v : Value) w :
  (∀ s e, format v = (s, Some e) →
     default_output logger tag t v w = (Returned (Some e), w)) ∧
  (∀ s n e d1, format v = (s, None) →
     Writer_Write (Out logger) (formatted_line logger tag t s) (dest w)
       = (Returned (n, Some e), d1) →
     default_output logger tag t v w = (Returned (Some e), set_dest d1 w)) ∧
  (∀ s n d1 n' d2, format v = (s, None) →
     Writer_Write (Out logger) (formatted_line logger tag t s) (dest w)
       = (Returned (n, None), d1) →
     Writer_Write (Out logger) newline d1 = (Returned (n', None), d2) →
     default_output logger tag t v w = (Returned None, set_dest d2 w)).
Proof.
  split; [| split].
  - intros s e. apply default_output_render_error.
  - intros s n e d1. apply default_output_line_error.
  - intros s n d1 n' d2. apply default_output_line_written.
Qed.

End Pipeline.

(* ================================================================== *)
(** * Log records: merging and clearing *)

Section LogProofs.
Context {Value : Type}.
Implicit Types h : gmap loc (gmap string Value).
Implicit Types m : gmap string Value.
Implicit Types kvs : list (string * Value).
Implicit Types r : Log.

Lemma lookup_overlay (base top : gmap string Value) (k : string) :
  overlay base top !! k =
    match top !! k with
    | Some v => Some v
    | None => base !! k
    end.
Proof.
  unfold overlay. rewrite lookup_union.
  destruct (top !! k), (base !! k); reflexivity.
Qed.

Lemma alter_known {A} (f : A → A) (p : loc) (g : gmap loc A) (a : A) :
  g !! p = Some a → alter f p g = <[p := f a]> g.
Proof.
  intros Hp. apply map_eq. intros q. rewrite lookup_alter, lookup_insert.
  case_decide; [by rewrite Hp | reflexivity].
Qed.

(** ** The copying loop *)

Lemma copy_entries_live kvs p h m :
  h !! p = Some m →
  copy_entries kvs (Some p) h
    = (Returned tt, <[p := foldl (λ acc kv, <[kv.1 := kv.2]> acc) m kvs]> h).
Proof.
  revert h m. induction kvs as [| [k v] kvs IH]; intros h m Hp.
  - simpl. unfold mret, Go_ret. by rewrite insert_id.
  - unfold copy_entries in *. cbn [for_each]. unfold mbind, Go_bind.
    cbn [map_assign fst snd]. rewrite (alter_known _ _ _ _ Hp).
    rewrite (IH _ (<[k := v]> m)); [| by rewrite lookup_insert_eq].
    by rewrite insert_insert_eq.
Qed.

Lemma copy_entries_nil kvs h :
  copy_entries kvs None h
    = match kvs with
      | [] => (Returned tt, h)
      | _ :: _ => (Panicked runtime_nil_map, h)
      end.
Proof. destruct kvs; reflexivity. Qed.

Lemma foldl_insert_union kvs m :
  NoDup kvs.*1 →
  foldl (λ acc kv, <[kv.1 := kv.2]> acc) m kvs = list_to_map kvs ∪ m.
Proof.
  revert m. induction kvs as [| [k v] kvs IH]; intros m Hnd.
  - simpl. by rewrite (left_id_L ∅ (∪)).
  - rewrite fmap_cons in Hnd. apply NoDup_cons in Hnd as [Hk Hnd].
    cbn [foldl list_to_map foldr fst snd uncurry]. rewrite (IH _ Hnd).
    rewrite <- insert_union_l. symmetry. apply insert_union_r.
    by apply not_elem_of_list_to_map_1.
Qed.

Lemma copy_all_live (src : gmap string Value) p h m :
  h !! p = Some m →
  copy_entries (map_to_list src) (Some p) h = (Returned tt, <[p := overlay m src]> h).
Proof.
  intros Hp. rewrite (copy_entries_live _ _ _ _ Hp).
  rewrite foldl_insert_union by apply NoDup_fst_map_to_list.
  by rewrite list_to_map_to_list.
Qed.

(** The order in which [range] produces the pairs does not matter. *)
Lemma copy_entries_any_order kvs kvs' p h m :
  h !! p = Some m → NoDup kvs.*1 → kvs ≡ₚ kvs' →
  copy_entries kvs (Some p) h = copy_entries kvs' (Some p) h.
Proof.
  intros Hp Hnd Hperm.
  rewrite !(copy_entries_live _ _ _ _ Hp), !foldl_insert_union; try done.
  - by rewrite (list_to_map_proper kvs kvs' Hnd Hperm).
  - by rewrite <- Hperm.
Qed.

(** ** Reading through references *)

Lemma map_of_live p h m : h !! p = Some m → map_of h (Some p) = m.
Proof. intros Hp. unfold map_of. by rewrite Hp. Qed.

Lemma map_of_insert_other h p r m :
  r ≠ Some p → map_of (<[p := m]> h) r = map_of h r.
Proof.
  destruct r as [q |]; [| done]. intros Hne. simpl.
  rewrite lookup_insert_ne; [done | congruence].
Qed.

Lemma sound_not_fresh h r : sound h r → r ≠ Some (fresh (dom h)).
Proof.
  destruct r as [p |]; [| done]. intros Hp [= ->].
  apply (is_fresh (dom h)). by apply elem_of_dom.
Qed.

(** ** The three merges *)

Lemma Log_From_live h p log m :
  h !! p = Some m →
  Log_From (Some p) log h = (Returned (Some p), <[p := overlay m (map_of h log)]> h).
Proof.
  intros Hp. unfold Log_From, map_range, mbind, Go_bind.
  by rewrite (copy_all_live _ _ _ _ Hp).
Qed.

Lemma Log_Into_live h l q m :
  h !! q = Some m →
  Log_Into l (Some q) h = (Returned (Some q), <[q := overlay m (map_of h l)]> h).
Proof.
  intros Hq. unfold Log_Into, map_range, mbind, Go_bind.
  by rewrite (copy_all_live _ _ _ _ Hq).
Qed.

Lemma Log_With_sound h l log :
  sound h l → sound h log →
  Log_With l log h
    = (Returned (Some (fresh (dom h))),
       <[fresh (dom h) := overlay (map_of h l) (map_of h log)]> h).
Proof.
  intros Hl Hlog. set (c := fresh (dom h)).
  assert (Hcp : (new ← map_make; Log_Into l new) h
                = (Returned (Some c), <[c := map_of h l]> h)).
  { rewrite (Go_bind_returned _ _ h (Some c) (<[c := ∅]> h)) by reflexivity.
    rewrite (Log_Into_live _ _ _ ∅) by apply lookup_insert_eq.
    rewrite map_of_insert_other by by apply sound_not_fresh.
    rewrite insert_insert_eq. unfold overlay. by rewrite (right_id_L ∅ (∪)). }
  unfold Log_With. rewrite (Go_bind_returned _ _ _ _ _ Hcp).
  rewrite (Go_bind_returned _ _ _ (map_to_list (map_of h log)) (<[c := map_of h l]> h)).
  2: { unfold map_range. by rewrite map_of_insert_other by by apply sound_not_fresh. }
  rewrite (Go_bind_returned _ _ _ tt (<[c := overlay (map_of h l) (map_of h log)]> h)).
  - reflexivity.
  - rewrite (copy_all_live _ _ _ (map_of h l)) by apply lookup_insert_eq.
    by rewrite insert_insert_eq.
Qed.

(** Storing through the nil map panics; an empty source stores nothing. *)
Lemma Log_From_nil_receiver h log :
  map_of h log ≠ ∅ → Log_From None log h = (Panicked runtime_nil_map, h).
Proof.
  intros Hne. unfold Log_From.
  rewrite (Go_bind_returned _ _ h (map_to_list (map_of h log)) h) by reflexivity.
  apply Go_bind_panicked. rewrite copy_entries_nil.
  destruct (map_to_list (map_of h log)) eqn:Hl; [| reflexivity].
  by apply map_to_list_empty_iff in Hl.
Qed.

Lemma Log_Into_nil_argument h l :
  map_of h l ≠ ∅ → Log_Into l None h = (Panicked runtime_nil_map, h).
Proof.
  intros Hne. unfold Log_Into.
  rewrite (Go_bind_returned _ _ h (map_to_list (map_of h l)) h) by reflexivity.
  apply Go_bind_panicked. rewrite copy_entries_nil.
  destruct (map_to_list (map_of h l)) eqn:Hl; [| reflexivity].
  by apply map_to_list_empty_iff in Hl.
Qed.

(** ** Clearing *)

Lemma delete_all_live kvs p h m :
  h !! p = Some m →
  for_each kvs (λ kv, map_delete (Some p) kv.1) h
    = (Returned tt, <[p := foldl (λ acc kv, delete kv.1 acc) m kvs]> h).
Proof.
  revert h m. induction kvs as [| [k v] kvs IH]; intros h m Hp.
  - simpl. unfold mret, Go_ret. by rewrite insert_id.
  - cbn [for_each]. unfold mbind, Go_bind.
    cbn [map_delete fst]. rewrite (alter_known _ _ _ _ Hp).
    rewrite (IH _ (delete k m)); [| by rewrite lookup_insert_eq].
    by rewrite insert_insert_eq.
Qed.

Lemma foldl_delete_lookup kvs m (k : string) :
  foldl (λ acc kv, delete kv.1 acc) m kvs !! k
    = if decide (k ∈ kvs.*1) then None else m !! k.
Proof.
  revert m. induction kvs as [| [k' v] kvs IH]; intros m.
  - case_decide as Hin; [by apply elem_of_nil in Hin | done].
  - cbn [foldl fst]. rewrite IH, fmap_cons. cbn [fst].
    destruct (decide (k ∈ kvs.*1)) as [Hin | Hout],
             (decide (k ∈ k' :: kvs.*1)) as [Hin' | Hout']; try done.
    + exfalso. apply Hout'. by apply elem_of_cons; right.
    + apply elem_of_cons in Hin' as [-> | ?]; [apply lookup_delete_eq | done].
    + apply lookup_delete_ne. intros ->. apply Hout'. by apply elem_of_cons; left.
Qed.

(** Deleting the keys of a list that names every key of [m], in any
    order, leaves nothing. *)
Lemma foldl_delete_covering kvs m :
  (∀ k, is_Some (m !! k) → k ∈ kvs.*1) →
  foldl (λ acc kv, delete kv.1 acc) m kvs = ∅.
Proof.
  intros Hcover. apply map_eq. intros k.
  rewrite foldl_delete_lookup, lookup_empty.
  case_decide as Hin; [done |].
  destruct (m !! k) as [v |] eqn:Hk; [| done].
  exfalso. apply Hin, Hcover. by rewrite Hk.
Qed.

Lemma foldl_delete_all m :
  foldl (λ acc kv, delete kv.1 acc) m (map_to_list m) = ∅.
Proof.
  apply foldl_delete_covering. intros k [v Hk].
  apply list_elem_of_fmap. exists (k, v).
  split; [done | by apply elem_of_map_to_list].
Qed.

Lemma Log_Reset_live h p m :
  h !! p = Some m → Log_Reset (Some p) h = (Returned tt, <[p := ∅]> h).
Proof.
  intros Hp. unfold Log_Reset, map_range, mbind, Go_bind.
  rewrite (map_of_live _ _ _ Hp), (delete_all_live _ _ _ _ Hp).
  by rewrite foldl_delete_all.
Qed.

Lemma Log_Reset_empty h r :
  map_of h r = ∅ → Log_Reset r h = (Returned tt, h).
Proof.
  intros He. unfold Log_Reset, map_range, mbind, Go_bind.
  by rewrite He, map_to_list_empty.
Qed.

Lemma Log_Reset_clears h l :
  ∃ h', Log_Reset l h = (Returned tt, h') ∧ map_of h' l = ∅ ∧
        ∀ r, r ≠ l → map_of h' r = map_of h r.
Proof.
  destruct l as [p |].
  - destruct (h !! p) as [m |] eqn:Hp.
    + exists (<[p := ∅]> h). split; [by apply (Log_Reset_live _ _ m) |]. split.
      * simpl. by rewrite lookup_insert_eq.
      * intros r Hr. by apply map_of_insert_other.
    + exists h. split; [| split; [| done]].
      * apply Log_Reset_empty. simpl. by rewrite Hp.
      * simpl. by rewrite Hp.
  - exists h. split; [by apply Log_Reset_empty |]. done.
Qed.

End LogProofs.

Section LogClaims.
Context {Value : Type}.
Implicit Types h : gmap loc (gmap string Value).

(** C3 (as the code has it).  For all records [l] and [log] of a heap:
    merge-from on a receiver [l] that is not the nil map stores every pair
    of [log] into [l], [log]'s value winning on a key both have, changes
    no other record and returns [l]; merge-into on an argument [log] that
    is not the nil map stores every pair of [l] into [log], [l]'s value
    winning, changes no other record and returns [log]; combined-with
    returns a record that was not in the heap, holding [l] overlaid by
    [log] with [log] winning, and leaves [l] and [log] as they were. *)
Theorem Log_merge_precedence h (l log : Log) :
  sound h l → sound h log →
  (l ≠ None →
     Log_From l log h
       = (Returned l, write_map h l (overlay (map_of h l) (map_of h log)))) ∧
  (log ≠ None →
     Log_Into l log h
       = (Returned log, write_map h log (overlay (map_of h log) (map_of h l)))) ∧
  (∃ c h', Log_With l log h = (Returned (Some c), h') ∧
           h !! c = None ∧
           h' = <[c := overlay (map_of h l) (map_of h log)]> h ∧
           map_of h' l = map_of h l ∧ map_of h' log = map_of h log).
Proof.
  intros Hl Hlog. split; [| split].
  - destruct l as [p |]; [intros _ | done]. destruct Hl as [m Hp].
    rewrite (map_of_live _ _ _ Hp). by apply Log_From_live.
  - destruct log as [q |]; [intros _ | done]. destruct Hlog as [m Hq].
    rewrite (map_of_live _ _ _ Hq). by apply Log_Into_live.
  - exists (fresh (dom h)), (<[fresh (dom h) := overlay (map_of h l) (map_of h log)]> h).
    split; [by apply Log_With_sound |]. split; [| split; [done |]].
    + apply not_elem_of_dom. apply is_fresh.
    + split; apply map_of_insert_other; by apply sound_not_fresh.
Qed.

End LogClaims.

Section Lifecycle.
Context {Value Time Dest : Type} `{!GoValue Value, !GoTime Time}.
Implicit Types lg : Logger (Value:=Value) (Time:=Time) (Dest:=Dest).
Implicit Types w : World Value Dest.

Lemma in_heap_map_len (log : Log) w :
  in_heap (map_len log) w = (Returned (size (map_of (heap w) log)), w).
Proof. by destruct w. Qed.

Lemma Serve_end_hook_empty (log : Log) lg (ctx : gear_Context) w :
  size (map_of (heap w) log) = 0 →
  Serve_end_hook log lg ctx w = (Returned tt, w).
Proof.
  intros Hsize. unfold Serve_end_hook.
  rewrite (Go_bind_returned _ _ _ _ _ (in_heap_map_len log w)).
  by rewrite Hsize.
Qed.

(** A record with keys is stamped and handed to the consume hook. *)
Lemma Serve_end_hook_nonempty (p : loc) (m : gmap string Value) lg
    (ctx : gear_Context) w :
  heap w !! p = Some m → m ≠ ∅ →
  Serve_end_hook (Some p) lg ctx w
    = consume lg (Some p) ctx
        (set_heap
           (<[p := <["Length" := box_int (Z.of_nat (String.length (Res_Body ctx)))]>
                     (<["Status" := box_int (Res_Status ctx)]> m)]> (heap w)) w).
Proof.
  intros Hp Hne. unfold Serve_end_hook.
  rewrite (Go_bind_returned _ _ _ _ _ (in_heap_map_len (Some p) w)).
  rewrite (map_of_live _ _ _ Hp).
  destruct (size m) as [| n] eqn:Hsize; [by apply map_size_empty_iff in Hsize |].
  cbn [Nat.eqb].
  rewrite (Go_bind_returned _ _ w tt
             (set_heap (<[p := <["Status" := box_int (Res_Status ctx)]> m]> (heap w)) w)).
  2: { apply zoom_returned. cbn [map_assign]. by rewrite (alter_known _ _ _ _ Hp). }
  rewrite (Go_bind_returned _ _ _ tt
             (set_heap
                (<[p := <["Length" := box_int (Z.of_nat (String.length (Res_Body ctx)))]>
                          (<["Status" := box_int (Res_Status ctx)]> m)]> (heap w)) w)).
  - reflexivity.
  - unfold in_heap, zoom. cbn [map_assign heap set_heap dest].
    rewrite (alter_known _ _ _ (<["Status" := box_int (Res_Status ctx)]> m))
      by apply lookup_insert_eq.
    by rewrite insert_insert_eq.
Qed.

(** C8.  Clearing removes every key of the record, in place: afterwards
    the same record reads as empty and every other record is as before.
    [Serve] installs one end hook, and for every record with zero keys
    that hook returns at once with the world as it was: no status or
    length is stored in the record, nothing reaches the destination, and
    this whatever function is the consume hook, which is not called. *)
Theorem Reset_and_silent_flush (h : gmap loc (gmap string Value)) (l : Log)
    lg (ctx : gear_Context) w :
  (∃ h', Log_Reset l h = (Returned tt, h') ∧ map_of h' l = ∅ ∧
         ∀ r, r ≠ l → map_of h' r = map_of h r) ∧
  Logger_Serve lg ctx = ([Serve_end_hook (ctx_Any ctx)], None) ∧
  (∀ log ctx', size (map_of (heap w) log) = 0 →
     Serve_end_hook log lg ctx' w = (Returned tt, w) ∧
     ∀ c, Serve_end_hook log (with_consume c lg) ctx' w = (Returned tt, w)).
Proof.
  split; [apply Log_Reset_clears |]. split; [reflexivity |].
  intros log ctx' Hsize. split; [| intros c]; by apply Serve_end_hook_empty.
Qed.

(** Clearing the attached record silences the flush. *)
Lemma Reset_silences_flush (log : Log) lg (ctx : gear_Context) w :
  ∃ w', in_heap (Log_Reset log) w = (Returned tt, w') ∧ dest w' = dest w ∧
        Serve_end_hook log lg ctx w' = (Returned tt, w').
Proof.
  destruct (Log_Reset_clears (heap w) log) as (h' & Hreset & Hempty & _).
  exists (set_heap h' w). split; [by apply zoom_returned |]. split; [reflexivity |].
  apply Serve_end_hook_empty. cbn [heap set_heap]. by rewrite Hempty.
Qed.

End Lifecycle.

(* ================================================================== *)
(** * The statements at concrete inputs *)

(** At threshold Error an Informational call writes nothing; at the
    default threshold it writes one line. *)
Lemma leveled_methods_gated_witness :
  Logger_Info (with_l ErrLevel buffer_logger) 5 (Vstring "hello") (fresh_world "")
    = (Returned None, fresh_world "") ∧
  Logger_Info buffer_logger 5 (Vstring "hello") (fresh_world "")
    = (Returned None, fresh_world ("[5] INFO hello" +:+ newline)).
Proof.
  destruct (leveled_methods_gated (Dest:=string) 5 (Vstring "hello") "" [])
    as (_ & _ & _ & _ & _ & HInfo & _).
  split.
  - apply (HInfo (with_l ErrLevel buffer_logger) (fresh_world "")).
    vm_compute. reflexivity.
  - destruct (HInfo buffer_logger (fresh_world "")) as [[_ Hinv] _].
    destruct Hinv as [Hcall _]; [vm_compute; discriminate |].
    cbv beta in Hcall. rewrite Hcall. vm_compute. reflexivity.
Defined.

(** The recording hook sees the wrapped value for Error and the value
    itself for Warning. *)
Lemma payload_wrapping_witness :
  (Logger_Err recording_logger 5 (Vstring "boom") (fresh_world [])).2
    = fresh_world [("ERR", Vstack (Vstring "boom") 2)] ∧
  (Logger_Warning recording_logger 5 (Vstring "boom") (fresh_world [])).2
    = fresh_world [("WARNING", Vstring "boom")].
Proof.
  destruct (payload_wrapping (Dest:=list (string * val)) 5 (Vstring "boom") "" [])
    as (_ & _ & _ & HErr & HWarning & _).
  split.
  - unfold recording_logger. rewrite HErr; [reflexivity | vm_compute; discriminate].
  - unfold recording_logger. rewrite HWarning; [reflexivity | vm_compute; discriminate].
Defined.

(** Level 8 is refused and the threshold stays; level 3 is stored. *)
Lemma SetLevel_checks_range_witness :
  Logger_SetLevel 8%N buffer_logger
    = (Panicked (gear_Err_WithMsg "invalid logger level"), buffer_logger) ∧
  ∃ lg', Logger_SetLevel 3%N buffer_logger = (Returned lg', lg') ∧ l lg' = 3%N.
Proof.
  split.
  - apply (SetLevel_checks_range 8%N buffer_logger). vm_compute. reflexivity.
  - destruct (proj2 (SetLevel_checks_range 3%N buffer_logger)) as (lg' & Hset & Hl & _).
    + vm_compute. discriminate.
    + exists lg'. by split.
Defined.

(** The three cases of the formatter. *)
Lemma format_by_capability_witness :
  format renderable = ("{}", None) ∧
  format unrenderable
    = ("Log{ch:(chan int)(0xc0)}", Some (errors_New "json: unsupported type")) ∧
  format (Vint 42) = ("42", None).
Proof.
  split; [| split].
  - exact (proj1 (format_by_capability renderable) working_messager "{}"
             eq_refl eq_refl).
  - exact (proj1 (proj2 (format_by_capability unrenderable)) failing_messager
             EmptyString (errors_New "json: unsupported type") eq_refl eq_refl).
  - rewrite (proj2 (proj2 (format_by_capability (Vint 42)))) by reflexivity.
    vm_compute. reflexivity.
Defined.

Lemma sound_two_records_1 : sound two_records (Some 1%positive).
Proof. by eexists. Qed.

Lemma sound_two_records_2 : sound two_records (Some 2%positive).
Proof. by eexists. Qed.

(** Merging the second record into the first: the first is rewritten with
    the second's value on the shared key, and is what is returned. *)
Lemma Log_merge_precedence_witness :
  Log_From (Some 1%positive) (Some 2%positive) two_records
    = (Returned (Some 1%positive),
       <[1%positive := {[ "key" := Vstring "foo"; "key2" := Vstring "foo2";
                          "both" := Vint 2 ]}]> two_records).
Proof.
  destruct (Log_merge_precedence two_records (Some 1%positive) (Some 2%positive)
              sound_two_records_1 sound_two_records_2) as (HFrom & _ & _).
  rewrite HFrom by discriminate. vm_compute. reflexivity.
Defined.

(** [Log(nil).From(Log{...})]: the store into the nil map panics, so the
    call neither mutates its receiver nor returns it. *)
Lemma Log_From_nil_panics :
  Log_From None (Some 2%positive) two_records = (Panicked runtime_nil_map, two_records) ∧
  ¬ ∃ h', Log_From None (Some 2%positive) two_records = (Returned None, h').
Proof.
  assert (Hpanic : Log_From None (Some 2%positive) two_records
                   = (Panicked runtime_nil_map, two_records)).
  { apply Log_From_nil_receiver. vm_compute. discriminate. }
  split; [exact Hpanic |]. intros [h' Hret]. rewrite Hpanic in Hret. discriminate Hret.
Qed.

(** Two runs that are not as claimed.  A value that cannot be rendered:
    no line and no newline is written.  A destination with room for the
    line and not for the newline: the newline write fails, and the pipeline
    returns nil, not that error. *)
Lemma default_output_not_as_claimed :
  default_output quota_logger "INFO" 5 unrenderable (fresh_world (mkQuota "" 14))
    = (Returned (Some (errors_New "json: unsupported type")),
       fresh_world (mkQuota "" 14)) ∧
  Writer_Write (Out quota_logger) newline (mkQuota "[5] INFO hello" 0)
    = (Returned (0%Z, Some (errors_New "no space left on device")),
       mkQuota "[5] INFO hello" 0) ∧
  default_output quota_logger "INFO" 5 (Vstring "hello") (fresh_world (mkQuota "" 14))
    = (Returned None, fresh_world (mkQuota "[5] INFO hello" 0)) ∧
  ¬ newline_error_is_returned quota_logger "INFO" 5 (Vstring "hello")
      (fresh_world (mkQuota "" 14)).
Proof.
  split_conjuncts; try (vm_compute; reflexivity).
  intros Hclaim.
  specialize (Hclaim "hello" 14%Z (mkQuota "[5] INFO hello" 0) 0%Z
                (errors_New "no space left on device") (mkQuota "[5] INFO hello" 0)
                eq_refl eq_refl eq_refl).
  vm_compute in Hclaim. discriminate Hclaim.
Qed.

(** The three cases of the pipeline: rendering fails; the line does not
    fit; line and newline are written. *)
Lemma default_output_errors_witness :
  default_output quota_logger "INFO" 5 unrenderable (fresh_world (mkQuota "" 14))
    = (Returned (Some (errors_New "json: unsupported type")), fresh_world (mkQuota "" 14)) ∧
  default_output quota_logger "INFO" 5 (Vstring "hello") (fresh_world (mkQuota "" 3))
    = (Returned (Some (errors_New "no space left on device")), fresh_world (mkQuota "" 3)) ∧
  default_output quota_logger "INFO" 5 (Vstring "hello") (fresh_world (mkQuota "" 15))
    = (Returned None, fresh_world (mkQuota ("[5] INFO hello" +:+ newline) 0)).
Proof.
  split_conjuncts.
  - eapply (proj1 (default_output_errors quota_logger "INFO" 5 unrenderable
                     (fresh_world (mkQuota "" 14)))).
    reflexivity.
  - eapply (proj1 (proj2 (default_output_errors quota_logger "INFO" 5 (Vstring "hello")
                            (fresh_world (mkQuota "" 3)))));
      vm_compute; reflexivity.
  - eapply (proj2 (proj2 (default_output_errors quota_logger "INFO" 5 (Vstring "hello")
                            (fresh_world (mkQuota "" 15)))));
      vm_compute; reflexivity.
Defined.

(** A message with CR and LF inside and a final LF is written as one line:
    the final LF is dropped and the others are spelled out. *)
Lemma message_has_no_line_break_witness :
  default_output buffer_logger "INFO" 5 (Vstring two_line_message) (fresh_world "")
    = (Returned None,
       fresh_world ("[5] INFO a" +:+ String "\" "r" +:+ String "\" "nb" +:+ newline)).
Proof.
  rewrite (proj1 (message_has_no_line_break buffer_logger "INFO" 5
                    (Vstring two_line_message) (fresh_world ""))).
  vm_compute. reflexivity.
Defined.

(** Emergency reaches the hook at the strictest threshold. *)
Lemma Emerg_ignores_threshold_witness :
  Logger_Emerg (with_l EmergLevel recording_logger) 5 (Vstring "down") (fresh_world [])
    = (Returned None, fresh_world [("EMERG", Vstack (Vstring "down") 2)]).
Proof.
  rewrite (proj1 (Emerg_ignores_threshold EmergLevel recording_logger 5
                    (Vstring "down") (fresh_world []))).
  vm_compute. reflexivity.
Defined.

(** Clearing a record with two keys leaves it empty; the end hook on an
    empty record returns without calling a consume hook that would panic,
    while on a record with keys it calls it. *)
Lemma Reset_and_silent_flush_witness :
  (∃ h', Log_Reset (Some 1%positive) two_records = (Returned tt, h') ∧
         map_of h' (Some 1%positive) = ∅) ∧
  Serve_end_hook (Some 1%positive) (with_consume panicking_consume buffer_logger)
    ctx_ok world_with_empty_record
    = (Returned tt, world_with_empty_record).
Proof.
  destruct (Reset_and_silent_flush two_records (Some 1%positive) buffer_logger
              ctx_ok world_with_empty_record) as (Hreset & _ & Hflush).
  split.
  - destruct Hreset as (h' & Hrun & Hempty & _). exists h'. split; assumption.
  - assert (Hsize : size (map_of (heap world_with_empty_record) (Some 1%positive)) = 0)
      by (vm_compute; reflexivity).
    exact (proj2 (Hflush (Some 1%positive) ctx_ok Hsize) panicking_consume).
Defined.

Lemma flush_of_nonempty_record_consumes :
  (Serve_end_hook (Some 1%positive) (with_consume panicking_consume buffer_logger)
     ctx_ok (mkWorld two_records "")).1
    = Panicked (panic_other "consume hook called").
Proof. vm_compute. reflexivity. Qed.

Lemma Log_Into_and_With_examples :
  Log_Into (Some 1%positive) (Some 2%positive) two_records
    = (Returned (Some 2%positive),
       <[2%positive := {[ "key" := Vstring "foo"; "key2" := Vstring "foo2";
                          "both" := Vint 1 ]}]> two_records) ∧
  Log_With (Some 1%positive) (Some 2%positive) two_records
    = (Returned (Some 3%positive),
       <[3%positive := {[ "key" := Vstring "foo"; "key2" := Vstring "foo2";
                          "both" := Vint 2 ]}]> two_records) ∧
  Log_With None None two_records
    = (Returned (Some 3%positive), <[3%positive := ∅]> two_records).
Proof. repeat split; vm_compute; reflexivity. Qed.

(* ================================================================== *)
(** * More on escaping and trimming *)

Lemma append_assoc (a b c : string) : (a +:+ b) +:+ c = a +:+ (b +:+ c).
Proof.
  induction a as [| x a IH]; [reflexivity |].
  change (String x (a +:+ b +:+ c)) with (String x (a +:+ (b +:+ c))).
  change ((String x a +:+ b) +:+ c) with (String x ((a +:+ b) +:+ c)).
  by rewrite IH.
Qed.

Lemma append_nil_r (a : string) : a +:+ EmptyString = a.
Proof.
  induction a as [| x a IH]; [reflexivity |].
  change (String x a +:+ EmptyString) with (String x (a +:+ EmptyString)).
  by rewrite IH.
Qed.

Lemma length_append (a b : string) :
  String.length (a +:+ b) = String.length a + String.length b.
Proof.
  induction a as [| x a IH]; [reflexivity |].
  change (String x a +:+ b) with (String x (a +:+ b)).
  cbn [String.length]. by rewrite IH.
Qed.

Lemma Replace_cons (r : Replacer) (b : ascii) (s : string) :
  Replace r (String b s) = Replace r (String b EmptyString) +:+ Replace r s.
Proof.
  cbn [Replace]. destruct (replacement r b) as [new |].
  - by rewrite append_nil_r.
  - reflexivity.
Qed.

Lemma Replace_append (r : Replacer) (a b : string) :
  Replace r (a +:+ b) = Replace r a +:+ Replace r b.
Proof.
  induction a as [| x a IH]; [reflexivity |].
  change (String x a +:+ b) with (String x (a +:+ b)).
  rewrite (Replace_cons r x (a +:+ b)), (Replace_cons r x a), IH.
  by rewrite append_assoc.
Qed.

Lemma escape_byte_length (b : ascii) :
  String.length (escape_byte b)
    = 1 + (if Ascii.eqb b CR || Ascii.eqb b LF then 1 else 0).
Proof.
  unfold escape_byte.
  destruct (Ascii.eqb b CR); [reflexivity |].
  destruct (Ascii.eqb b LF); reflexivity.
Qed.

Lemma Replace_crlfEscaper_length (s : string) :
  String.length (Replace crlfEscaper s) = String.length s + line_breaks s.
Proof.
  rewrite Replace_crlfEscaper.
  induction s as [| b s IH]; [reflexivity |].
  cbn [escape_spec line_breaks String.length].
  rewrite length_append, escape_byte_length, IH. lia.
Qed.

Lemma Replace_crlfEscaper_clean (s : string) :
  line_breaks s = 0 → Replace crlfEscaper s = s.
Proof.
  rewrite Replace_crlfEscaper.
  induction s as [| b s IH]; [reflexivity |].
  cbn [escape_spec line_breaks]. unfold escape_byte.
  destruct (Ascii.eqb b CR); [cbn [orb]; lia |].
  destruct (Ascii.eqb b LF); [cbn [orb]; lia |].
  cbn [orb]. intros Hz. by rewrite IH by lia.
Qed.

(** X1.  Escaping works byte by byte: the escaping of a concatenation is
    the concatenation of the escapings, the escaped string is longer than
    the original by one byte for each CR or LF in it, and it is the
    original exactly when the original has no CR and no LF. *)
Theorem escaping_is_bytewise (a b : string) :
  Replace crlfEscaper (a +:+ b) = Replace crlfEscaper a +:+ Replace crlfEscaper b ∧
  String.length (Replace crlfEscaper a) = String.length a + line_breaks a ∧
  (Replace crlfEscaper a = a ↔ line_breaks a = 0).
Proof.
  split; [apply Replace_append |]. split; [apply Replace_crlfEscaper_length |].
  split; [| apply Replace_crlfEscaper_clean].
  intros Heq. pose proof (Replace_crlfEscaper_length a) as Hlen.
  rewrite Heq in Hlen. lia.
Qed.

(** X2.  The escaper leaves the backslash alone, so escaping loses
    information: wherever they stand in a message, a carriage return and
    the two characters backslash r give the same escaped text, and so do a
    line feed and the two characters backslash n. *)
Theorem escaping_collides (a b : string) :
  Replace crlfEscaper (a +:+ String CR b)
    = Replace crlfEscaper (a +:+ String "\" (String "r" b)) ∧
  Replace crlfEscaper (a +:+ String LF b)
    = Replace crlfEscaper (a +:+ String "\" (String "n" b)) ∧
  a +:+ String CR b ≠ a +:+ String "\" (String "r" b).
Proof.
  split; [| split].
  - rewrite !Replace_append. f_equal.
  - rewrite !Replace_append. f_equal.
  - intros Heq. apply (inj (String.append a)) in Heq. discriminate Heq.
Qed.

Lemma trim_final_newline_newline (s : string) :
  trim_final_newline (s +:+ newline) = s.
Proof.
  unfold newline. rewrite trim_final_newline_snoc. by rewrite decide_True.
Qed.

(** X3.  Only one final line feed is dropped before escaping: a message
    that ends in one line feed is emitted as the escaping of what precedes
    it, and a message that ends in two is emitted with the first of them
    spelled out as backslash n at the end. *)
Theorem one_final_newline_dropped (s : string) :
  escaped_message (s +:+ newline) = Replace crlfEscaper s ∧
  escaped_message ((s +:+ newline) +:+ newline)
    = Replace crlfEscaper s +:+ String "\" (String "n" EmptyString) ∧
  (String.length (trim_final_newline s) ≤ String.length s)%nat ∧
  (String.length s ≤ S (String.length (trim_final_newline s)))%nat.
Proof.
  unfold escaped_message. split; [by rewrite trim_final_newline_newline |]. split.
  - rewrite trim_final_newline_newline, Replace_append. reflexivity.
  - destruct (trim_final_newline_spec s) as [(s' & -> & ->) | [_ ->]]; [| lia].
    unfold newline. rewrite length_snoc. lia.
Qed.

(* ================================================================== *)
(** * More on records *)

Section LogAlgebra.
Context {Value : Type}.
Implicit Types h : gmap loc (gmap string Value).
Implicit Types m : gmap string Value.
Implicit Types kvs : list (string * Value).
Implicit Types r : Log.

Lemma delete_entries_nil kvs h :
  for_each kvs (λ kv, map_delete None kv.1) h = (Returned tt, h).
Proof.
  induction kvs as [| kv kvs IH]; [reflexivity |].
  cbn [for_each]. by rewrite (Go_bind_returned _ _ h tt h) by reflexivity.
Qed.

Lemma foldl_delete_any_order kvs kvs' m :
  kvs ≡ₚ kvs' →
  foldl (λ acc kv, delete kv.1 acc) m kvs = foldl (λ acc kv, delete kv.1 acc) m kvs'.
Proof.
  intros Hperm. apply map_eq. intros k. rewrite !foldl_delete_lookup.
  destruct (decide (k ∈ kvs.*1)) as [Hin | Hout];
    [rewrite decide_True | rewrite decide_False]; try done.
  - by rewrite <- Hperm.
  - by rewrite <- Hperm.
Qed.

(** X4.  Go yields the pairs of a map in an order of its choosing; the
    loops of From, Into, With and Reset do not depend on it: for two
    orderings of the same pairs (with distinct keys, as in a map), the
    copying loop leaves the same heap and the same outcome, and so does
    the deleting loop. *)
Theorem range_order_is_irrelevant h r kvs kvs' :
  sound h r → NoDup kvs.*1 → kvs ≡ₚ kvs' →
  copy_entries kvs r h = copy_entries kvs' r h ∧
  for_each kvs (λ kv, map_delete r kv.1) h
    = for_each kvs' (λ kv, map_delete r kv.1) h.
Proof.
  intros Hr Hnd Hperm. destruct r as [p |].
  - destruct Hr as [m Hp]. split.
    + by apply (copy_entries_any_order _ _ _ _ m).
    + rewrite !(delete_all_live _ _ _ _ Hp).
      by rewrite (foldl_delete_any_order kvs kvs' m Hperm).
  - split; [| by rewrite !delete_entries_nil].
    rewrite !copy_entries_nil.
    destruct kvs as [| kv kvs], kvs' as [| kv' kvs']; try reflexivity.
    + by apply Permutation_nil_cons in Hperm.
    + symmetry in Hperm. by apply Permutation_nil_cons in Hperm.
Qed.

Lemma map_of_insert_same h (c : loc) m : map_of (<[c := m]> h) (Some c) = m.
Proof. cbn [map_of]. by rewrite lookup_insert_eq. Qed.

Lemma overlay_idemp m : overlay m m = m.
Proof. unfold overlay. apply (idemp_L (∪)). Qed.

Lemma overlay_twice (base top : gmap string Value) :
  overlay (overlay base top) top = overlay base top.
Proof. unfold overlay. by rewrite (assoc_L (∪)), (idemp_L (∪)). Qed.

Lemma overlay_assoc (a b c : gmap string Value) :
  overlay (overlay a b) c = overlay a (overlay b c).
Proof. unfold overlay. by rewrite (assoc_L (∪)). Qed.

Lemma Log_From_self h l : sound h l → Log_From l l h = (Returned l, h).
Proof.
  destruct l as [p |].
  - intros [m Hp]. rewrite (Log_From_live _ _ _ _ Hp), (map_of_live _ _ _ Hp).
    by rewrite overlay_idemp, insert_id.
  - intros _. reflexivity.
Qed.

(** X5.  Merging is safe to repeat: merging a record from itself changes
    nothing, and merging the same argument into a receiver a second time
    changes nothing more (also when the two are the same record). *)
Theorem Log_From_idempotent h (l log : Log) :
  sound h l → sound h log → l ≠ None →
  Log_From l l h = (Returned l, h) ∧
  ∃ h', Log_From l log h = (Returned l, h') ∧ Log_From l log h' = (Returned l, h').
Proof.
  intros Hl Hlog Hne. split; [by apply Log_From_self |].
  destruct l as [p |]; [clear Hne | done]. destruct Hl as [m Hp].
  exists (<[p := overlay m (map_of h log)]> h).
  split; [by apply Log_From_live |].
  rewrite (Log_From_live _ _ _ (overlay m (map_of h log))) by apply lookup_insert_eq.
  rewrite insert_insert_eq. do 2 f_equal.
  destruct (decide (log = Some p)) as [-> | Hother].
  - rewrite (map_of_live _ _ _ Hp), map_of_insert_same.
    by rewrite !overlay_idemp.
  - rewrite map_of_insert_other by done. by rewrite overlay_twice.
Qed.

Lemma sound_insert h r (c : loc) m : sound h r → sound (<[c := m]> h) r.
Proof.
  destruct r as [p |]; [| done]. cbn [sound]. intros Hp.
  destruct (decide (c = p)) as [-> | Hne].
  - rewrite lookup_insert_eq. by eexists.
  - by rewrite lookup_insert_ne.
Qed.

(** X6.  The record With returns shares nothing with its operands:
    clearing the receiver afterwards leaves the copy with the merged
    pairs, and storing into the copy leaves both operands as they were. *)
Theorem Log_With_is_a_snapshot h (l log : Log) (key : string) (val : Value) :
  sound h l → sound h log →
  ∃ c h1, Log_With l log h = (Returned (Some c), h1) ∧
    (∃ h2, Log_Reset l h1 = (Returned tt, h2) ∧
           map_of h2 (Some c) = overlay (map_of h l) (map_of h log) ∧
           map_of h2 l = ∅) ∧
    (∃ h3, map_assign (Some c) key val h1 = (Returned tt, h3) ∧
           map_of h3 (Some c) = <[key := val]> (overlay (map_of h l) (map_of h log)) ∧
           map_of h3 l = map_of h l ∧ map_of h3 log = map_of h log).
Proof.
  intros Hl Hlog. set (c := fresh (dom h)).
  set (merged := overlay (map_of h l) (map_of h log)).
  exists c, (<[c := merged]> h). split; [by apply Log_With_sound |].
  assert (Hlc : l ≠ Some c) by by apply sound_not_fresh.
  assert (Hlogc : log ≠ Some c) by by apply sound_not_fresh.
  split.
  - destruct (Log_Reset_clears (<[c := merged]> h) l) as (h2 & Hreset & Hempty & Hrest).
    exists h2. split; [done |]. split; [| done].
    rewrite Hrest by done. apply map_of_insert_same.
  - exists (<[c := <[key := val]> merged]> h). split.
    + cbn [map_assign].
      rewrite (alter_known _ _ _ merged) by apply lookup_insert_eq.
      by rewrite insert_insert_eq.
    + split; [apply map_of_insert_same |].
      split; by apply map_of_insert_other.
Qed.

(** X7.  Chained With calls compose: overlaying [a] and then [b] on [l]
    gives a record with the pairs of [l] overlaid by the record that
    [a.With(b)] gives. *)
Theorem Log_With_chain h (l a b : Log) :
  sound h l → sound h a → sound h b →
  ∃ c2 h2 d2 k2,
    (cp ← Log_With l a; Log_With cp b) h = (Returned (Some c2), h2) ∧
    (ab ← Log_With a b; Log_With l ab) h = (Returned (Some d2), k2) ∧
    map_of h2 (Some c2)
      = overlay (overlay (map_of h l) (map_of h a)) (map_of h b) ∧
    map_of k2 (Some d2) = map_of h2 (Some c2).
Proof.
  intros Hl Ha Hb.
  set (c1 := fresh (dom h)).
  set (h1 := <[c1 := overlay (map_of h l) (map_of h a)]> h).
  set (k1 := <[c1 := overlay (map_of h a) (map_of h b)]> h).
  assert (Hc1 : sound h1 (Some c1)) by (cbn [sound]; unfold h1; rewrite lookup_insert_eq; by eexists).
  assert (Hd1 : sound k1 (Some c1)) by (cbn [sound]; unfold k1; rewrite lookup_insert_eq; by eexists).
  exists (fresh (dom h1)),
    (<[fresh (dom h1) := overlay (map_of h1 (Some c1)) (map_of h1 b)]> h1),
    (fresh (dom k1)),
    (<[fresh (dom k1) := overlay (map_of k1 l) (map_of k1 (Some c1))]> k1).
  split; [| split; [| split]].
  - rewrite (Go_bind_returned _ _ h (Some c1) h1) by by apply Log_With_sound.
    apply Log_With_sound; [done | by apply sound_insert].
  - rewrite (Go_bind_returned _ _ h (Some c1) k1) by by apply Log_With_sound.
    apply Log_With_sound; [by apply sound_insert | done].
  - rewrite map_of_insert_same. unfold h1.
    rewrite map_of_insert_same.
    by rewrite map_of_insert_other by by apply sound_not_fresh.
  - rewrite !map_of_insert_same. unfold h1, k1.
    rewrite !map_of_insert_same.
    rewrite !map_of_insert_other by by apply sound_not_fresh.
    by rewrite overlay_assoc.
Qed.

End LogAlgebra.

Section LogText.
Context {Value : Type} `{!GoSyntax Value}.
Implicit Types h : gmap loc (gmap string Value).
Implicit Types kvs : list (string * Value).

Lemma GoString_loop_cons (kv : string * Value) kvs (count : Z) (buf : string) :
  GoString_loop (kv :: kvs) count buf
    = if (count - 1 =? 0)%Z
      then GoString_loop kvs (count - 1) (buf +:+ kv.1 +:+ ":" +:+ fmt_GoSyntax kv.2 +:+ "}")
      else GoString_loop kvs (count - 1) (buf +:+ kv.1 +:+ ":" +:+ fmt_GoSyntax kv.2 +:+ ", ").
Proof. reflexivity. Qed.

Lemma GoString_loop_last (kv : string * Value) (buf : string) :
  GoString_loop [kv] 1 buf = (buf +:+ pair_text kv) +:+ "}".
Proof.
  cbn [GoString_loop]. change (1 - 1 =? 0)%Z with true. cbv iota.
  unfold pair_text. by rewrite !append_assoc.
Qed.

Lemma GoString_loop_joined kvs (buf : string) :
  kvs ≠ [] →
  GoString_loop kvs (Z.of_nat (length kvs)) buf = (buf +:+ joined_pairs kvs) +:+ "}".
Proof.
  revert buf. induction kvs as [| kv kvs IH]; intros buf Hne; [done |].
  destruct kvs as [| kv' kvs]; [apply GoString_loop_last |].
  rewrite GoString_loop_cons.
  replace (Z.of_nat (length (kv :: kv' :: kvs)) - 1)%Z
    with (Z.of_nat (length (kv' :: kvs))) by (cbn [length]; lia).
  destruct (Z.eqb_spec (Z.of_nat (length (kv' :: kvs))) 0) as [Hz | _];
    [cbn [length] in Hz; lia |].
  rewrite IH by done.
  change (joined_pairs (kv :: kv' :: kvs))
    with (pair_text kv +:+ ", " +:+ joined_pairs (kv' :: kvs)).
  unfold pair_text at 1. by rewrite !append_assoc.
Qed.

(** X8.  The Go-syntax rendering of a record ([GoString], and [String],
    which calls it): a record without keys, the nil map included, renders
    as the word Log and an opening brace, with no closing brace;
    a record with keys renders as the opening, the pairs [key:value]
    separated by a comma and a space in the order the range yields them,
    and one closing brace, whatever that order is. *)
Theorem Log_String_shape h (l : Log) :
  (map_of h l = ∅ → Log_String l h = (Returned "Log{", h)) ∧
  (map_of h l ≠ ∅ →
     Log_String l h
       = (Returned (("Log{" +:+ joined_pairs (map_to_list (map_of h l))) +:+ "}"), h)) ∧
  (∀ kvs, kvs ≡ₚ map_to_list (map_of h l) → kvs ≠ [] →
     GoString_loop kvs (Z.of_nat (size (map_of h l))) "Log{"
       = ("Log{" +:+ joined_pairs kvs) +:+ "}").
Proof.
  assert (Hrun : Log_String l h
            = (Returned (GoString_loop (map_to_list (map_of h l))
                           (Z.of_nat (size (map_of h l))) "Log{"), h)) by reflexivity.
  split; [| split].
  - intros Hempty. rewrite Hrun, Hempty, map_to_list_empty. reflexivity.
  - intros Hne. rewrite Hrun. rewrite <- length_map_to_list.
    rewrite GoString_loop_joined; [done |].
    intros Hnil. by apply map_to_list_empty_iff in Hnil.
  - intros kvs Hperm Hne. rewrite <- length_map_to_list, <- Hperm.
    by apply GoString_loop_joined.
Qed.

End LogText.

Section LogKeys.
Context {Value : Type}.
Implicit Types h : gmap loc (gmap string Value).

Lemma overlay_dom (base top : gmap string Value) :
  dom (overlay base top) = dom base ∪ dom top.
Proof. unfold overlay. rewrite dom_union_L. apply (comm_L (∪)). Qed.

Lemma overlay_size (base top : gmap string Value) :
  (size base ≤ size (overlay base top))%nat ∧
  (size (overlay base top) ≤ size base + size top)%nat.
Proof.
  rewrite <- !(size_dom (D:=gset string)), overlay_dom. split.
  - apply subseteq_size, union_subseteq_l.
  - rewrite size_union_alt.
    assert (size (dom top ∖ dom base) ≤ size (dom top))%nat
      by (apply subseteq_size, subseteq_difference_l; reflexivity).
    lia.
Qed.

(** X9.  Merging never loses a key: after merge-from on a receiver that is
    not the nil map, the receiver's keys are its old keys together with
    the argument's, a key the argument lacks keeps the receiver's value,
    and the receiver has at least as many keys as before and at most as
    many as the two records had together. *)
Theorem Log_From_keeps_keys h (l log : Log) :
  sound h l → l ≠ None →
  ∃ h', Log_From l log h = (Returned l, h') ∧
    dom (map_of h' l) = dom (map_of h l) ∪ dom (map_of h log) ∧
    (∀ k, map_of h log !! k = None → map_of h' l !! k = map_of h l !! k) ∧
    (size (map_of h l) ≤ size (map_of h' l))%nat ∧
    (size (map_of h' l) ≤ size (map_of h l) + size (map_of h log))%nat.
Proof.
  intros Hl Hne. destruct l as [p |]; [clear Hne | done]. destruct Hl as [m Hp].
  exists (<[p := overlay m (map_of h log)]> h).
  split; [by apply Log_From_live |].
  rewrite map_of_insert_same, (map_of_live _ _ _ Hp).
  split; [apply overlay_dom |]. split; [| apply overlay_size].
  intros k Hk. by rewrite lookup_overlay, Hk.
Qed.

End LogKeys.

(* ================================================================== *)
(** * More on the logger *)

Section LoggerMore.
Context {Value Time Dest : Type} `{!GoValue Value, !GoTime Time, !GoPrint Value}.
Implicit Types lg : Logger (Value:=Value) (Time:=Time) (Dest:=Dest).
Implicit Types w : World Value Dest.

Lemma with_l_with_output (T : Level) fn lg :
  with_output fn (with_l T lg) = with_l T (with_output fn lg).
Proof. reflexivity. Qed.

(** X10.  For a method guarded at severity [S]: raising the threshold
    never silences it; at the threshold [New] sets (Debug) every method
    with a severity up to Debug invokes the pipeline; at threshold
    Emergency no method guarded at a lower severity does. *)
Theorem raising_threshold_keeps_output (S : Level)
    (m : Logger → Go (World Value Dest) error) (now : Time) (v : Value) :
  gated_by_level S m now v →
  (∀ lg (T T' : Level) w, (T ≤ T')%N →
     invokes_output m (with_l T lg) (Level_String S) now v w →
     invokes_output m (with_l T' lg) (Level_String S) now v w) ∧
  (∀ lg w, (S ≤ DebugLevel)%N →
     invokes_output m (with_l DebugLevel lg) (Level_String S) now v w) ∧
  (∀ lg w, (EmergLevel < S)%N →
     m (with_l EmergLevel lg) w = (Returned None, w)).
Proof.
  intros Hgated. split; [| split].
  - intros lg T T' w HT Hinv.
    apply (Hgated (with_l T lg) w) in Hinv. cbn [l with_l] in Hinv.
    apply (Hgated (with_l T' lg) w). cbn [l with_l]. lia.
  - intros lg w HS. by apply (Hgated (with_l DebugLevel lg) w).
  - intros lg w HS. by apply (Hgated (with_l EmergLevel lg) w).
Qed.

(** X11.  [Panic] and [Fatal] log what [Emerg] logs, at every threshold,
    and drop the error of that emission: when the emission returns,
    [Panic] panics with the wrapped value that was logged and [Fatal] runs
    the exit function, in the world the emission left; when the output
    hook panics, that panic goes through and the exit function is not
    run. *)
Theorem Panic_and_Fatal_log_first (T : Level) lg (now : Time) (v : Value)
    (exit : Go (World Value Dest) unit) w :
  (∀ e w', Logger_Emerg lg now v w = (Returned e, w') →
     Logger_Panic (with_l T lg) now v w = (panic_with (ErrorWithStack v 2), w') ∧
     Logger_Fatal exit (with_l T lg) now v w = exit w') ∧
  (∀ p w', Logger_Emerg lg now v w = (Panicked p, w') →
     Logger_Panic (with_l T lg) now v w = (panic_inside p, w') ∧
     Logger_Fatal exit (with_l T lg) now v w = (Panicked p, w')).
Proof.
  assert (HT : Logger_Output (with_l T lg) (Level_String EmergLevel) now
                 (ErrorWithStack v 2) w = Logger_Emerg lg now v w).
  { unfold Logger_Emerg, Logger_Output. cbn [output with_l].
    destruct (output lg); reflexivity. }
  split; intros x w' Hemerg.
  - split.
    + unfold Logger_Panic. by rewrite HT, Hemerg.
    + unfold Logger_Fatal. rewrite <- HT in Hemerg.
      by rewrite (Go_bind_returned _ _ _ _ _ Hemerg).
  - split.
    + unfold Logger_Panic. by rewrite HT, Hemerg.
    + unfold Logger_Fatal. rewrite <- HT in Hemerg.
      by rewrite (Go_bind_panicked _ _ _ _ _ Hemerg).
Qed.

(** X12.  The format setters take effect on the pipeline [New] installed
    before them: after [SetTimeFormat(g)] and [SetLogFormat(f)], chained in
    either order, the closure of [New] writes the line built with [f] from
    the time rendered with [g]; the threshold and the hooks are as they
    were. *)
Theorem formats_bind_late lg (f g : string) (tag : string) (t : Time) (v : Value) w :
  ∃ lg2,
    (Logger_SetTimeFormat g ;; Logger_SetLogFormat f) lg = (Returned lg2, lg2) ∧
    (Logger_SetLogFormat f ;; Logger_SetTimeFormat g) lg = (Returned lg2, lg2) ∧
    l lg2 = l lg ∧ Out lg2 = Out lg ∧ output lg2 = output lg ∧
    init lg2 = init lg ∧ consume lg2 = consume lg ∧
    (output lg = output_New →
     Logger_Output lg2 tag t v w =
       match format v with
       | (_, Some e) => (Returned (Some e), w)
       | (s, None) =>
           write_line (Out lg)
             (fmt_Sprintf f [box_string (UTC_Format t g); box_string tag;
                             box_string (escaped_message s)]) w
       end).
Proof.
  exists (with_lf f (with_tf g lg)).
  split; [reflexivity |]. split; [reflexivity |].
  do 5 (split; [reflexivity |]).
  intros Hnew. unfold Logger_Output. cbn [output with_lf with_tf]. rewrite Hnew.
  rewrite default_output_unfold. reflexivity.
Qed.

End LoggerMore.

Section Appending.
Context {Value Time : Type} `{!GoValue Value, !GoTime Time, !GoPrint Value}.
Implicit Types lg : Logger (Value:=Value) (Time:=Time) (Dest:=string).
Implicit Types w : World Value string.

(** X13.  On a destination that appends what it is given and never fails
    (a [bytes.Buffer]), [Print], [Printf] and [Println] add exactly the
    rendered bytes, with no time and no tag before them, whatever the threshold and
    whatever output hook is installed; an emission of the default pipeline
    after a [Print] adds its line and one newline right behind those
    bytes. *)
Theorem Print_writes_raw_bytes lg (T : Level) fn (args : list Value)
    (fmt tag : string) (t : Time) (v : Value) (s : string) w :
  (∀ p d, Writer_Write (Out lg) p d
          = (Returned (Z.of_nat (String.length p), None), d +:+ p)) →
  format v = (s, None) →
  Logger_Print (with_output fn (with_l T lg)) args w
    = (Returned tt, set_dest (dest w +:+ fmt_Sprint_args args) w) ∧
  Logger_Printf (with_output fn (with_l T lg)) fmt args w
    = (Returned tt, set_dest (dest w +:+ fmt_Sprintf fmt args) w) ∧
  Logger_Println (with_output fn (with_l T lg)) args w
    = (Returned tt, set_dest (dest w +:+ fmt_Sprintln args) w) ∧
  (Logger_Print lg args ;; default_output lg tag t v) w
    = (Returned None,
       set_dest (((dest w +:+ fmt_Sprint_args args) +:+ formatted_line lg tag t s)
                 +:+ newline) w).
Proof.
  intros Happend Hformat.
  assert (HPrint : ∀ lg', Out lg' = Out lg →
            Logger_Print lg' args w
              = (Returned tt, set_dest (dest w +:+ fmt_Sprint_args args) w)).
  { intros lg' HOut. unfold Logger_Print.
    rewrite (Go_bind_returned _ _ w
               ((Z.of_nat (String.length (fmt_Sprint_args args)), None) : Z * error)
               (set_dest (dest w +:+ fmt_Sprint_args args) w)); [reflexivity |].
    apply zoom_returned. rewrite HOut. apply Happend. }
  split; [by apply HPrint |]. split.
  - unfold Logger_Printf.
    rewrite (Go_bind_returned _ _ w
               ((Z.of_nat (String.length (fmt_Sprintf fmt args)), None) : Z * error)
               (set_dest (dest w +:+ fmt_Sprintf fmt args) w)); [reflexivity |].
    unfold Fprintf. apply zoom_returned. cbn [Out with_output with_l]. apply Happend.
  - split.
    { unfold Logger_Println.
      rewrite (Go_bind_returned _ _ w
                 ((Z.of_nat (String.length (fmt_Sprintln args)), None) : Z * error)
                 (set_dest (dest w +:+ fmt_Sprintln args) w)); [reflexivity |].
      apply zoom_returned. cbn [Out with_output with_l]. apply Happend. }
    rewrite (Go_bind_returned _ _ _ _ _ (HPrint lg eq_refl)).
    rewrite (default_output_line_written lg tag t v _ s
               (Z.of_nat (String.length (formatted_line lg tag t s)))
               ((dest w +:+ fmt_Sprint_args args) +:+ formatted_line lg tag t s)
               (Z.of_nat (String.length newline), None)
               (((dest w +:+ fmt_Sprint_args args) +:+ formatted_line lg tag t s)
                +:+ newline)); [reflexivity | done | apply Happend | apply Happend].
Qed.

End Appending.

(* ================================================================== *)
(** * The request lifecycle with the hooks of [New] *)

Section Host.
Context {Value Time Dest : Type}
  `{!GoValue Value, !GoTime Time, !GoHost Value Time Dest}.
Implicit Types lg : Logger (Value:=Value) (Time:=Time) (Dest:=Dest).
Implicit Types w : World Value Dest.
Implicit Types m : gmap string Value.

Lemma world_eta w : mkWorld (heap w) (dest w) = w.
Proof. by destruct w. Qed.

Lemma assign_step (h0 : gmap loc (gmap string Value)) w (p : loc) m
    (key : string) (val : Value) :
  in_heap (map_assign (Some p) key val) (set_heap (<[p := m]> h0) w)
    = (Returned tt, set_heap (<[p := <[key := val]> m]> h0) w).
Proof.
  unfold in_heap, zoom. cbn [map_assign heap set_heap dest].
  rewrite (alter_known _ _ _ m) by apply lookup_insert_eq.
  by rewrite insert_insert_eq.
Qed.

Lemma world_as_update w (p : loc) m :
  heap w !! p = Some m → w = set_heap (<[p := m]> (heap w)) w.
Proof. intros Hp. unfold set_heap. by rewrite insert_id, world_eta. Qed.

Lemma in_heap_lookup (log : Log) (key : string) w :
  in_heap (map_lookup log key) w = (Returned (map_of (heap w) log !! key), w).
Proof. by destruct w. Qed.

Lemma map_index_run (log : Log) (key : string) w :
  map_index log key w = (Returned (default nil_Value (map_of (heap w) log !! key)), w).
Proof.
  unfold map_index. by rewrite (Go_bind_returned _ _ _ _ _ (in_heap_lookup log key w)).
Qed.

Lemma default_init_step (h0 : gmap loc (gmap string Value)) w (p : loc) m
    (now : Time) (ctx : gear_Context) :
  default_init now (Some p) ctx (set_heap (<[p := m]> h0) w)
    = (Returned tt, set_heap (<[p := request_fields now ctx m]> h0) w).
Proof.
  unfold default_init, request_fields.
  do 5 (erewrite Go_bind_returned; [| apply assign_step]).
  apply assign_step.
Qed.

Lemma request_fields_size (now : Time) (ctx : gear_Context) :
  size (request_fields now ctx ∅) = 6.
Proof.
  unfold request_fields.
  rewrite !map_size_insert_None, map_size_empty; [reflexivity | ..];
    rewrite ?lookup_insert_ne by done; apply lookup_empty.
Qed.

(** X14.  [Logger.New] with the [init] closure of [New]: the call returns,
    with a nil error, a record that was not in the heap, leaves the other
    records and the destination alone, and the record holds exactly the
    six keys IP, Method, URL, Proto, UserAgent and Start (the instant of
    the call).  So the record is not empty: the end hook of [Serve], run on
    it as it is, stamps it and calls the consume hook. *)
Theorem New_record_has_six_fields lg (now : Time) (ctx : gear_Context) w :
  ∃ c w',
    Logger_New (with_init (default_init now) lg) ctx w = (Returned (Some c, None), w') ∧
    heap w !! c = None ∧
    heap w' = <[c := request_fields now ctx ∅]> (heap w) ∧ dest w' = dest w ∧
    size (request_fields now ctx ∅) = 6 ∧
    request_fields now ctx ∅ !! "Start" = Some (box_Time now) ∧
    ∀ lg' ctx',
      Serve_end_hook (Some c) lg' ctx' w'
        = consume lg' (Some c) ctx'
            (set_heap
               (<[c := <["Length" := box_int (Z.of_nat (String.length (Res_Body ctx')))]>
                         (<["Status" := box_int (Res_Status ctx')]>
                            (request_fields now ctx ∅))]> (heap w')) w').
Proof.
  set (c := fresh (dom (heap w))).
  exists c, (set_heap (<[c := request_fields now ctx ∅]> (heap w)) w).
  split; [| split; [| split; [| split; [| split; [| split]]]]].
  - unfold Logger_New.
    rewrite (Go_bind_returned _ _ w (Some c) (set_heap (<[c := ∅]> (heap w)) w))
      by (by destruct w).
    cbn [init with_init].
    by rewrite (Go_bind_returned _ _ _ _ _ (default_init_step (heap w) w c ∅ now ctx)).
  - apply not_elem_of_dom, is_fresh.
  - reflexivity.
  - reflexivity.
  - apply request_fields_size.
  - apply lookup_insert_eq.
  - intros lg' ctx'. apply Serve_end_hook_nonempty.
    + cbn [heap set_heap]. apply lookup_insert_eq.
    + apply insert_non_empty.
Qed.

(** X15.  The [consume] closure of [New] and the key Time: when the
    record holds an instant under Start, the closure stores under Time the
    time elapsed since then, in nanoseconds divided by a million (rounded
    toward zero), and changes no other key, before it emits; when Start is
    missing or is no instant, it stores nothing and still emits. *)
Theorem default_consume_elapsed_time lg (end_ : Time) (log : Log)
    (ctx : gear_Context) w :
  (∀ p m v t, log = Some p → heap w !! p = Some m →
     m !! "Start" = Some v → as_Time v = Some t →
     default_consume lg end_ log ctx w
       = emit_and_report lg end_ log ctx
           (set_heap
              (<[p := <["Time" := box_Duration (Z.quot (Time_Sub end_ t) 1000000)]> m]>
                 (heap w)) w)) ∧
  ((map_of (heap w) log !! "Start") ≫= as_Time = None →
     default_consume lg end_ log ctx w = emit_and_report lg end_ log ctx w).
Proof.
  split.
  - intros p m v t -> Hp Hstart Ht. unfold default_consume.
    rewrite (Go_bind_returned _ _ _ _ _ (in_heap_lookup (Some p) "Start" w)).
    rewrite (map_of_live _ _ _ Hp), Hstart. cbn [mbind option_bind]. rewrite Ht.
    rewrite (world_as_update w p m Hp) at 1.
    by rewrite (Go_bind_returned _ _ _ _ _ (assign_step (heap w) w p m "Time" _)).
  - intros Hnone. unfold default_consume.
    rewrite (Go_bind_returned _ _ _ _ _ (in_heap_lookup log "Start" w)).
    rewrite Hnone. by rewrite (Go_bind_returned _ _ w tt w) by reflexivity.
Qed.

(** X16.  The [consume] closure of [New] emits at Informational through
    [Output], which tests no threshold: the access line is emitted at
    every threshold.  An error of the emission is handed to the context's
    error sink and the closure returns what the sink returns; without an
    error the sink is not called. *)
Theorem default_consume_emits_at_any_threshold lg (T : Level) (end_ : Time)
    (log : Log) (ctx : gear_Context) w :
  default_consume (with_l T lg) end_ log ctx w = default_consume lg end_ log ctx w ∧
  (∀ fn e w',
     fn "INFO" end_ (box_Log log) w = (Returned (Some e), w') →
     emit_and_report (with_output (output_func fn) (with_l T lg)) end_ log ctx w
       = ctx_LogErr ctx e w') ∧
  (∀ fn w',
     fn "INFO" end_ (box_Log log) w = (Returned None, w') →
     emit_and_report (with_output (output_func fn) (with_l T lg)) end_ log ctx w
       = (Returned tt, w')).
Proof.
  split; [| split].
  - unfold default_consume, emit_and_report, Logger_Output. cbn [output with_l].
    destruct (output lg); reflexivity.
  - intros fn e w' Hfn. unfold emit_and_report.
    by rewrite (Go_bind_returned _ _ w (Some e) w') by exact Hfn.
  - intros fn w' Hfn. unfold emit_and_report.
    by rewrite (Go_bind_returned _ _ w None w') by exact Hfn.
Qed.

(** X17.  [SetTo] and the flush: storing a key in the attached record
    makes the end hook of [Serve] call the consume hook, also on a record
    that was empty or cleared before.  The hook first stores the response
    status under Status and the body length under Length, over whatever
    the handler stored under these two keys, and leaves every other key as
    it was. *)
Theorem SetTo_then_flush lg (ctx : gear_Context) (key : string) (val : Value)
    w (p : loc) m :
  ctx_Any ctx = Some p → heap w !! p = Some m →
  ∃ w1 stamped,
    Logger_SetTo lg ctx key val w = (Returned tt, w1) ∧
    heap w1 = <[p := <[key := val]> m]> (heap w) ∧ dest w1 = dest w ∧
    (∀ lg' ctx',
       Serve_end_hook (Logger_FromCtx lg ctx) lg' ctx' w1
         = consume lg' (Some p) ctx' (set_heap (<[p := stamped ctx']> (heap w1)) w1)) ∧
    (∀ ctx',
       stamped ctx' !! "Status" = Some (box_int (Res_Status ctx')) ∧
       stamped ctx' !! "Length"
         = Some (box_int (Z.of_nat (String.length (Res_Body ctx')))) ∧
       ∀ k, k ≠ "Status" → k ≠ "Length" →
            stamped ctx' !! k = (<[key := val]> m) !! k).
Proof.
  intros HAny Hp.
  exists (set_heap (<[p := <[key := val]> m]> (heap w)) w),
    (λ ctx', <["Length" := box_int (Z.of_nat (String.length (Res_Body ctx')))]>
               (<["Status" := box_int (Res_Status ctx')]> (<[key := val]> m))).
  split; [| split; [| split; [| split]]].
  - unfold Logger_SetTo. rewrite HAny. rewrite (world_as_update w p m Hp) at 1.
    apply assign_step.
  - reflexivity.
  - reflexivity.
  - intros lg' ctx'. unfold Logger_FromCtx. rewrite HAny.
    apply Serve_end_hook_nonempty.
    + cbn [heap set_heap]. apply lookup_insert_eq.
    + apply insert_non_empty.
  - intros ctx'. split; [| split].
    + rewrite lookup_insert_ne by done. apply lookup_insert_eq.
    + apply lookup_insert_eq.
    + intros k HS HL. by rewrite !lookup_insert_ne by done.
Qed.

(** X18.  [Default]: without an argument, or with a first argument that is
    false, the default logger is returned as it is; with a first argument
    that is true its consume hook becomes the development one and nothing
    else changes; further arguments are ignored, and a later call with
    false does not bring the former hook back. *)
Theorem Default_dev_mode_is_one_way
    (dev : Log → gear_Context → Go (World Value Dest) unit) lg (rest : list bool) :
  Default dev [] lg = (Returned lg, lg) ∧
  Default dev (false :: rest) lg = (Returned lg, lg) ∧
  Default dev (true :: rest) lg = (Returned (with_consume dev lg), with_consume dev lg) ∧
  (Default dev (true :: rest) ;; Default dev [false]) lg
    = (Returned (with_consume dev lg), with_consume dev lg) ∧
  (Default dev (true :: rest) ;; Default dev [true]) lg
    = (Returned (with_consume dev lg), with_consume dev lg) ∧
  l (with_consume dev lg) = l lg ∧ output (with_consume dev lg) = output lg ∧
  Out (with_consume dev lg) = Out lg ∧ init (with_consume dev lg) = init lg.
Proof. repeat split. Qed.

End Host.

Section Development.
Context {Value Time Dest : Type}
  `{!GoValue Value, !GoTime Time, !GoHost Value Time Dest}.
Implicit Types lg std : Logger (Value:=Value) (Time:=Time) (Dest:=Dest).
Implicit Types w : World Value Dest.
Implicit Types m : gmap string Value.

(** A run of [developmentConsume] over a colour printer and a destination
    that return, the printer leaving the records alone: the records are as
    before, and
    the call panics exactly at a failed type assertion, the one on Status
    first. *)
Lemma developmentConsume_outcome
    (F : Writer Dest → string → ColorType → Go (World Value Dest) (Z * error))
    std (end_ : Time) (log : Log) (ctx : gear_Context) w :
  (∀ text c w0, ∃ r d, F (Out std) text c w0 = (Returned r, set_dest d w0)) →
  (∀ text d, ∃ r d', Writer_Write (Out std) text d = (Returned r, d')) →
  ∃ w',
    heap w' = heap w ∧
    developmentConsume F std end_ log ctx w
      = (match as_int (default nil_Value (map_of (heap w) log !! "Status")) with
         | None => Panicked (panic_other "interface conversion: interface {} is not int")
         | Some _ =>
             match as_Time (default nil_Value (map_of (heap w) log !! "Start")) with
             | None =>
                 Panicked (panic_other "interface conversion: interface {} is not time.Time")
             | Some _ => Returned tt
             end
         end, w').
Proof.
  intros HF HW. unfold developmentConsume.
  rewrite (Go_bind_returned _ _ _ _ _ (map_index_run log "IP" w)).
  destruct (HF
              (fmt_Sprintf "%s" [default nil_Value (map_of (heap w) log !! "IP")])
              ColorGreen w) as (r1 & d1 & H1).
  rewrite (Go_bind_returned _ _ _ _ _ H1).
  set (w1 := set_dest d1 w).
  rewrite (Go_bind_returned _ _ _ _ _ (map_index_run log "Method" w1)).
  rewrite (Go_bind_returned _ _ _ _ _ (map_index_run log "URL" w1)).
  rewrite (Go_bind_returned _ _ _ _ _ (map_index_run log "Proto" w1)).
  match goal with
  | |- context [Fprintf (Out std) ?f ?a] =>
      destruct (HW (fmt_Sprintf f a) (dest w1)) as (r2 & d2 & H2);
      rewrite (Go_bind_returned _ _ w1 r2 (set_dest d2 w1)
                 (zoom_returned _ _ _ w1 r2 d2 H2 : Fprintf (Out std) f a w1 = _))
  end.
  set (w2 := set_dest d2 w1).
  rewrite (Go_bind_returned _ _ _ _ _ (map_index_run log "Status" w2)).
  change (heap w2) with (heap w).
  destruct (as_int (default nil_Value (map_of (heap w) log !! "Status"))) as [st |].
  2: { exists w2. split; reflexivity. }
  destruct (HF (strconv_Itoa st) (colorStatus st) w2) as (r3 & d3 & H3).
  rewrite (Go_bind_returned _ _ _ _ _ H3).
  set (w3 := set_dest d3 w2).
  rewrite (Go_bind_returned _ _ _ _ _ (map_index_run log "Start" w3)).
  change (heap w3) with (heap w).
  destruct (as_Time (default nil_Value (map_of (heap w) log !! "Start"))) as [t |].
  2: { exists w3. split; reflexivity. }
  rewrite (Go_bind_returned _ _ _ _ _ (map_index_run log "Length" w3)).
  match goal with
  | |- context [Writer_Write (Out std) ?text] =>
      destruct (HW text (dest w3)) as (r4 & d4 & H4);
      rewrite (Go_bind_returned _ _ w3 r4 (set_dest d4 w3)
                 (zoom_returned _ _ _ w3 r4 d4 H4))
  end.
  exists (set_dest d4 w3). split; reflexivity.
Qed.

(** X19.  Development mode at the end of a request: over a colour printer
    and a destination that return, the end hook of [Serve] run on a record
    with a key never fails the type assertion on Status, which it has just
    stored as an int; it returns when the record holds an instant under
    Start and panics on the assertion to [time.Time] otherwise, as for a
    record that was cleared and written to again.  In both cases the record
    ends with Status and Length stored and nothing else changed. *)
Theorem development_hook_needs_Start
    (F : Writer Dest → string → ColorType → Go (World Value Dest) (Z * error))
    std lg (end_ : Time) (ctx : gear_Context) w (p : loc) m :
  (∀ text c w0, ∃ r d, F (Out std) text c w0 = (Returned r, set_dest d w0)) →
  (∀ text d, ∃ r d', Writer_Write (Out std) text d = (Returned r, d')) →
  heap w !! p = Some m → m ≠ ∅ →
  ∃ w',
    Serve_end_hook (Some p) (with_consume (developmentConsume F std end_) lg) ctx w
      = (match as_Time (default nil_Value (m !! "Start")) with
         | Some _ => Returned tt
         | None =>
             Panicked (panic_other "interface conversion: interface {} is not time.Time")
         end, w') ∧
    heap w' = <[p := <["Length" := box_int (Z.of_nat (String.length (Res_Body ctx)))]>
                        (<["Status" := box_int (Res_Status ctx)]> m)]> (heap w).
Proof.
  intros HF HW Hp Hne.
  rewrite (Serve_end_hook_nonempty p m _ ctx w Hp Hne). cbn [consume with_consume].
  match goal with
  | |- context [developmentConsume F std end_ (Some p) ctx ?w1] =>
      destruct (developmentConsume_outcome F std end_ (Some p) ctx w1 HF HW)
        as (w' & Hheap & Hrun)
  end.
  exists w'. split; [| exact Hheap].
  rewrite Hrun. cbn [heap set_heap].
  rewrite (map_of_live _ _ _ (lookup_insert_eq _ _ _)).
  rewrite (lookup_insert_ne _ "Length" "Status") by done.
  rewrite lookup_insert_eq.
  change (default nil_Value (Some (box_int (Res_Status ctx))))
    with (box_int (Res_Status ctx)).
  rewrite as_int_box.
  by rewrite !(lookup_insert_ne _ _ "Start") by done.
Qed.

End Development.

(* ================================================================== *)
(** * The further statements at concrete inputs *)

(** Copying the pairs [a:1, b:2] into the first record in either order. *)
Lemma range_order_is_irrelevant_witness :
  copy_entries pairs_ab (Some 1%positive) two_records
    = copy_entries pairs_ba (Some 1%positive) two_records.
Proof.
  refine (proj1 (range_order_is_irrelevant two_records (Some 1%positive)
                   pairs_ab pairs_ba sound_two_records_1 _ _)).
  - apply (bool_decide_unpack _). vm_compute. exact I.
  - apply perm_swap.
Defined.

(** Merging the first record from itself. *)
Lemma Log_From_idempotent_witness :
  Log_From (Some 1%positive) (Some 1%positive) two_records
    = (Returned (Some 1%positive), two_records).
Proof.
  refine (proj1 (Log_From_idempotent two_records (Some 1%positive) (Some 2%positive)
                   sound_two_records_1 sound_two_records_2 _)).
  discriminate.
Defined.

(** The copy of the two records keeps the second's value on the shared
    key after the first is cleared. *)
Lemma Log_With_is_a_snapshot_witness :
  ∃ c h1 h2,
    Log_With (Some 1%positive) (Some 2%positive) two_records = (Returned (Some c), h1) ∧
    Log_Reset (Some 1%positive) h1 = (Returned tt, h2) ∧
    map_of h2 (Some 1%positive) = ∅ ∧
    map_of h2 (Some c) !! "both" = Some (Vint 2).
Proof.
  destruct (Log_With_is_a_snapshot two_records (Some 1%positive) (Some 2%positive)
              "new" (Vint 3) sound_two_records_1 sound_two_records_2)
    as (c & h1 & HWith & (h2 & HReset & Hc & Hl) & _).
  exists c, h1, h2. split; [exact HWith |]. split; [exact HReset |].
  split; [exact Hl |]. rewrite Hc. vm_compute. reflexivity.
Defined.

(** The first record overlaid by the second and then by the first again:
    the first's value is back on the shared key. *)
Lemma Log_With_chain_witness :
  ∃ c2 h2,
    (cp ← Log_With (Some 1%positive) (Some 2%positive); Log_With cp (Some 1%positive))
      two_records = (Returned (Some c2), h2) ∧
    map_of h2 (Some c2) !! "both" = Some (Vint 1).
Proof.
  destruct (Log_With_chain two_records (Some 1%positive) (Some 2%positive)
              (Some 1%positive) sound_two_records_1 sound_two_records_2
              sound_two_records_1)
    as (c2 & h2 & _ & _ & Hrun & _ & Hc & _).
  exists c2, h2. split; [exact Hrun |]. rewrite Hc. vm_compute. reflexivity.
Defined.

(** Merging the second record into the first keeps the first's own key. *)
Lemma Log_From_keeps_keys_witness :
  ∃ h', Log_From (Some 1%positive) (Some 2%positive) two_records
          = (Returned (Some 1%positive), h') ∧
        map_of h' (Some 1%positive) !! "key" = Some (Vstring "foo").
Proof.
  destruct (Log_From_keeps_keys two_records (Some 1%positive) (Some 2%positive)
              sound_two_records_1 ltac:(discriminate))
    as (h' & HFrom & _ & Hkeep & _).
  exists h'. split; [exact HFrom |].
  rewrite Hkeep by (vm_compute; reflexivity). vm_compute. reflexivity.
Defined.

(** At threshold Emergency an Informational call writes nothing. *)
Lemma raising_threshold_keeps_output_witness :
  Logger_Info (with_l EmergLevel buffer_logger) 5 (Vstring "hello") (fresh_world "")
    = (Returned None, fresh_world "").
Proof.
  refine (proj2 (proj2 (raising_threshold_keeps_output (Dest:=string) InfoLevel
                          (λ lg, Logger_Info lg 5 (Vstring "hello")) 5 (Vstring "hello") _))
            buffer_logger (fresh_world "") _).
  - apply guarded_method_gated. intros lg. reflexivity.
  - reflexivity.
Defined.

(** [Print] at threshold Error writes its operands and nothing else. *)
Lemma Print_writes_raw_bytes_witness :
  Logger_Print (with_l ErrLevel buffer_logger) [Vstring "raw "; Vint 1; Vint 2]
    (fresh_world "") = (Returned tt, fresh_world "raw 1 2").
Proof.
  refine (proj1 (Print_writes_raw_bytes buffer_logger ErrLevel output_New
                   [Vstring "raw "; Vint 1; Vint 2] "%s" "INFO" 5 (Vstring "hello")
                   "hello" (fresh_world "") _ _)).
  - intros p d. reflexivity.
  - reflexivity.
Defined.

(** Storing a key in the empty record attached to the context. *)
Lemma SetTo_then_flush_witness :
  ∃ w1, Logger_SetTo console_logger ctx_ok "user" (Hstring "bob") console_world
          = (Returned tt, w1) ∧
        heap w1 !! 1%positive = Some {[ "user" := Hstring "bob" ]}.
Proof.
  destruct (SetTo_then_flush console_logger ctx_ok "user" (Hstring "bob")
              console_world 1%positive ∅ eq_refl eq_refl)
    as (w1 & stamped & Hrun & Hheap & _).
  exists w1. split; [exact Hrun |]. rewrite Hheap. apply lookup_insert_eq.
Defined.

(** The development hook on a record without a start instant panics. *)
Lemma development_hook_needs_Start_witness :
  ∃ w',
    Serve_end_hook (Some 1%positive)
      (with_consume (developmentConsume plain_FprintWithColor console_logger 105)
         console_logger) ctx_ok world_without_Start
      = (Panicked (panic_other "interface conversion: interface {} is not time.Time"), w').
Proof.
  destruct (development_hook_needs_Start plain_FprintWithColor console_logger
              console_logger 105 ctx_ok world_without_Start 1%positive
              {[ "user" := Hstring "bob" ]})
    as (w' & Hrun & _).
  - intros text c w0. eexists _, _. reflexivity.
  - intros text d. eexists _, _. reflexivity.
  - reflexivity.
  - apply map_non_empty_singleton.
  - exists w'. exact Hrun.
Defined.
